(** * auth-bff-oidc-template: session lifecycle, stores, middleware,
    rate limiter and PKCE, embedded in Rocq.

  JavaScript numbers that carry epoch milliseconds, counters and limits are
  modelled as [Z]; [Map<string, T>] is stdpp's [gmap string T]; every call of
  [Date.now()] inside one operation is the clock reading [now] passed to the
  operation. *)

From Stdlib Require Import ZArith Lia Bool Ascii.
From stdpp Require Import gmap strings list.

Local Open Scope Z_scope.

(* ===================================================================== *)
(** ** src/lib/server/auth/rate-limiter.ts *)
(* ===================================================================== *)

Module RateLimiter.

Record RateLimitOptions := {
  maxRequests : Z;
  windowMs : Z;
  skipSuccessfulRequests : bool;
  message : string;
  skipIps : list string
}.

Record RateLimitRecord := { count : Z; resetTime : Z }.

(** The object returned by [check]. *)
Record CheckResult := {
  allowed : bool;
  remaining : Z;
  resultResetTime : Z
}.

Abbreviation Records := (gmap string RateLimitRecord).

(** [!record || record.resetTime < now] *)
Definition needsReset (now : Z) (record : option RateLimitRecord) : bool :=
  match record with
  | None => true
  | Some r => resetTime r <? now
  end.

(** [{ count: 0, resetTime: now + this.options.windowMs }] *)
Definition freshRecord (options : RateLimitOptions) (now : Z) : RateLimitRecord :=
  {| count := 0; resetTime := now + windowMs options |}.

(** [{ allowed, remaining, resetTime: record.resetTime }] computed from the
    record in force. *)
Definition resultOf (options : RateLimitOptions) (record : RateLimitRecord)
    : CheckResult :=
  {| allowed := count record <? maxRequests options;
     remaining := Z.max 0 (maxRequests options - count record - 1);
     resultResetTime := resetTime record |}.

(** [RateLimiter.check] *)
Definition check (options : RateLimitOptions) (now : Z) (ip : string)
    (records : Records) : CheckResult * Records :=
  let record := records !! ip in
  let '(record, records) :=
    match record with
    | Some r =>
        if needsReset now (Some r)
        then (freshRecord options now, <[ip := freshRecord options now]> records)
        else (r, records)
    | None => (freshRecord options now, <[ip := freshRecord options now]> records)
    end in
  (resultOf options record, records).

(** [RateLimiter.increment]: [record.count++] on an existing record only. *)
Definition increment (ip : string) (records : Records) : Records :=
  alter (fun r => {| count := count r + 1; resetTime := resetTime r |}) ip records.

(** The roll-back of the middleware: [if (record && record.count > 0) record.count--]. *)
Definition rollback (ip : string) (records : Records) : Records :=
  alter (fun r => if 0 <? count r
                  then {| count := count r - 1; resetTime := resetTime r |}
                  else r) ip records.

(** [RateLimiter.cleanup] *)
Definition cleanup (now : Z) (records : Records) : Records :=
  filter (fun kv => ¬ (resetTime kv.2 < now)) records.

(** What the handler returned by [rateLimitMiddleware] does with a request. *)
Inductive Outcome :=
| Bypassed                       (* resolve(event) without any accounting *)
| Rejected (status : Z) (msg : string)   (* error(429, config.message) *)
| Served (limit remainingHeader resetHeader : Z).

Definition startsWith (s prefix : string) : bool :=
  bool_decide (String.substring 0 (String.length prefix) s = prefix).

(** [rateLimitMiddleware]; [responseStatus] is the status of the response that
    [resolve(event)] produces. *)
Definition rateLimitMiddleware (config : RateLimitOptions)
    (routes : option (list string)) (pathname ip : string) (responseStatus : Z)
    (now : Z) (records : Records) : Outcome * Records :=
  let scoped :=
    match routes with
    | Some rs => existsb (startsWith pathname) rs
    | None => true
    end in
  if negb scoped then (Bypassed, records)
  else if bool_decide (ip ∈ skipIps config) then (Bypassed, records)
  else
    let '(res, records1) := check config now ip records in
    if negb (allowed res) then (Rejected 429 (message config), records1)
    else
      let records2 := increment ip records1 in
      let records3 :=
        if skipSuccessfulRequests config && (responseStatus <? 400)
        then rollback ip records2 else records2 in
      (Served (maxRequests config) (remaining res) (resultResetTime res), records3).

(** Sequential check-then-increment usage (lines 194 to 201 of the
    middleware): one [check], and one [increment] when it was admitted. *)
Definition checkThenIncrement (options : RateLimitOptions) (now : Z) (ip : string)
    (records : Records) : CheckResult * Records :=
  let '(res, records1) := check options now ip records in
  (res, if allowed res then increment ip records1 else records1).

(** A run of requests of one key at the given clock readings. *)
Fixpoint requests (options : RateLimitOptions) (ip : string) (times : list Z)
    (records : Records) : list CheckResult * Records :=
  match times with
  | [] => ([], records)
  | now :: rest =>
      let '(res, records1) := checkThenIncrement options now ip records in
      let '(ress, records2) := requests options ip rest records1 in
      (res :: ress, records2)
  end.

(** The results of [n] further requests of a window in which [i] requests
    went before and whose boundary is [reset]: the [k]-th of them is admitted
    when [i + k < maxRequests]. *)
Fixpoint expected (options : RateLimitOptions) (reset : Z) (i : Z) (n : nat)
    : list CheckResult :=
  match n with
  | O => []
  | S n' =>
      {| allowed := i <? maxRequests options;
         remaining := Z.max 0 (maxRequests options - i - 1);
         resultResetTime := reset |} :: expected options reset (i + 1) n'
  end.

Definition strictAuth : RateLimitOptions :=
  {| maxRequests := 5; windowMs := 60000; skipSuccessfulRequests := true;
     message := "Too many login attempts. Please try again in a minute.";
     skipIps := [] |}.

End RateLimiter.

(* ===================================================================== *)
(** ** src/lib/server/auth/utils.ts and the callback route *)
(* ===================================================================== *)

Module Utils.

#[local] Set Warnings "-register-all".

(** The values [JSON.parse] can produce.  Numbers are the integers that
    [Date.now()] writes into the cookie. *)
Inductive JsValue :=
| JsNull
| JsBool (b : bool)
| JsNumber (n : Z)
| JsString (s : string)
| JsArray (items : list JsValue)
| JsObject (fields : list (string * JsValue)).

(** The cookie text seen through [JSON.parse]: it throws a [SyntaxError] or
    yields a value. *)
Inductive ParseOutcome :=
| SyntaxError
| Parsed (v : JsValue).

(** [obj[key]] on an object's own properties. *)
Fixpoint ownProperty (fields : list (string * JsValue)) (key : string)
    : option JsValue :=
  match fields with
  | [] => None
  | (k, v) :: rest => if String.eqb k key then Some v else ownProperty rest key
  end.

(** [parsed.key]: [None] is [undefined].  Reading a property of [null] throws
    and is handled by the caller; primitives and arrays have none of the three
    properties read here. *)
Definition getProperty (parsed : JsValue) (key : string) : option JsValue :=
  match parsed with
  | JsObject fields => ownProperty fields key
  | _ => None
  end.

Record OAuthState := {
  state : string;
  codeVerifier : string;
  timestamp : Z
}.

(** [isValidState]: [typeof state === "string" && state.length >= 16] *)
Definition isValidState (state : string) : bool :=
  (16 <=? Z.of_nat (String.length state)).

(** [isValidSessionId] *)
Definition isValidSessionId (sessionId : string) : bool :=
  (0 <? Z.of_nat (String.length sessionId)).

(** [isValidAuthCode] *)
Definition isValidAuthCode (code : string) : bool :=
  (0 <? Z.of_nat (String.length code)).

(** [const maxAge = 10 * 60 * 1000] *)
Definition maxAge : Z := 10 * 60 * 1000.

(** [isValidTimestamp]: [now - timestamp < maxAge] *)
Definition isValidTimestamp (now : Z) (timestamp : Z) : bool :=
  now - timestamp <? maxAge.

(** [parseOAuthState]: [None] is [null].  Both [catch] paths (the
    [SyntaxError] of [JSON.parse] and the [TypeError] of reading a property of
    [null]) return [null]. *)
Definition parseOAuthState (now : Z) (stateData : ParseOutcome)
    : option OAuthState :=
  match stateData with
  | SyntaxError => None
  | Parsed JsNull => None
  | Parsed parsed =>
      match getProperty parsed "state",
            getProperty parsed "codeVerifier",
            getProperty parsed "timestamp" with
      | Some (JsString st), Some (JsString cv), Some (JsNumber ts) =>
          if isValidState st && isValidTimestamp now ts
          then Some {| state := st; codeVerifier := cv; timestamp := ts |}
          else None
      | _, _, _ => None
      end
  end.

(** [!x] on an optional string: [undefined], [null] and the empty string are
    falsy. *)
Definition falsy (x : option string) : bool :=
  match x with
  | None => true
  | Some s => bool_decide (s = "")
  end.

(** The validation steps of [GET /auth/callback] that precede the token
    exchange. *)
Inductive CallbackValidation :=
| RedirectError (kind : string)
| Exchange (code : string) (verifier : string).

Definition callbackValidation (now : Z) (code state : option string)
    (storedData : option ParseOutcome) : CallbackValidation :=
  match storedData, code, state with
  | Some cookie, Some c, Some st =>
      if falsy (Some c) || falsy (Some st) then RedirectError "invalid_request"
      else
        match parseOAuthState now cookie with
        | None => RedirectError "invalid_request"
        | Some oauthData =>
            if bool_decide (st = Utils.state oauthData)
            then Exchange c (codeVerifier oauthData)
            else RedirectError "invalid_state"
        end
  | _, _, _ => RedirectError "invalid_request"
  end.

End Utils.

(* ===================================================================== *)
(** ** src/lib/server/auth/session-store.ts *)
(* ===================================================================== *)

(** Operations of a store read and write its state and may throw (a rejected
    promise of an asynchronous store): [M S A] is the state of the store
    threaded through a computation that ends in a value or in an exception.
    The state reached before a [throw] is kept. *)
Inductive Result (A : Type) :=
| Ok (a : A)
| Throw (e : string).
Arguments Ok {A} a.
Arguments Throw {A} e.

Definition M (S A : Type) : Type := S -> Result A * S.

Definition ret {S A} (a : A) : M S A := fun st => (Ok a, st).

Definition throw {S A} (e : string) : M S A := fun st => (Throw e, st).

Definition bind {S A B} (c : M S A) (k : A -> M S B) : M S B :=
  fun st =>
    match c st with
    | (Ok a, st') => k a st'
    | (Throw e, st') => (Throw e, st')
    end.

(** [try { body } catch (error) { handler }] *)
Definition tryCatch {S A} (body : M S A) (handler : string -> M S A) : M S A :=
  fun st =>
    match body st with
    | (Ok a, st') => (Ok a, st')
    | (Throw e, st') => handler e st'
    end.

Definition gets {S A} (f : S -> A) : M S A := fun st => (Ok (f st), st).

Definition modify {S} (f : S -> S) : M S unit := fun st => (Ok tt, f st).

(** [const x = await c1; c2] and [await c1; c2] *)
Notation "'let!' x ':=' c1 'in' c2" := (bind c1 (fun x => c2))
  (at level 10, x name, c1 at level 100, c2 at level 200).
Notation "'do!' c1 'in' c2" := (bind c1 (fun _ => c2))
  (at level 10, c1 at level 100, c2 at level 200).

(** [interface SessionData] *)
Record SessionData := {
  sessionId : string;
  userId : string;
  accessToken : option string;
  refreshToken : option string;
  idToken : option string;
  expiresAt : Z
}.

(** [Partial<SessionData>]: [None] means the key is not given.  For the three
    optional fields a given key may carry [undefined], written [Some None]. *)
Record SessionUpdates := {
  newSessionId : option string;
  newUserId : option string;
  newAccessToken : option (option string);
  newRefreshToken : option (option string);
  newIdToken : option (option string);
  newExpiresAt : option Z
}.

Definition noUpdates : SessionUpdates :=
  {| newSessionId := None; newUserId := None; newAccessToken := None;
     newRefreshToken := None; newIdToken := None; newExpiresAt := None |}.

(** The object spread [{ ...session, ...updates }]. *)
Definition spread (session : SessionData) (updates : SessionUpdates) : SessionData :=
  {| sessionId := default (sessionId session) (newSessionId updates);
     userId := default (userId session) (newUserId updates);
     accessToken := default (accessToken session) (newAccessToken updates);
     refreshToken := default (refreshToken session) (newRefreshToken updates);
     idToken := default (idToken session) (newIdToken updates);
     expiresAt := default (expiresAt session) (newExpiresAt updates) |}.

(** [interface SessionStore]; the first argument of every operation is the
    clock reading of its [Date.now()] calls. *)
Module SessionStore.

Record t (S : Type) := {
  createSession : Z -> SessionData -> M S unit;
  getSession : Z -> string -> M S (option SessionData);
  updateSession : Z -> string -> SessionUpdates -> M S bool;
  deleteSession : Z -> string -> M S bool;
  cleanupExpiredSessions : Z -> M S unit
}.
Arguments createSession {S} _ _ _ _.
Arguments getSession {S} _ _ _ _.
Arguments updateSession {S} _ _ _ _ _.
Arguments deleteSession {S} _ _ _ _.
Arguments cleanupExpiredSessions {S} _ _ _.

End SessionStore.

(* ===================================================================== *)
(** ** src/lib/server/auth/stores/memory.ts *)
(* ===================================================================== *)

Module MemorySessionStore.

(** [private sessions = new Map<string, SessionData>()] *)
Abbreviation Sessions := (gmap string SessionData).

Definition createSession (now : Z) (sessionData : SessionData) : M Sessions unit :=
  modify (fun sessions => <[sessionId sessionData := sessionData]> sessions).

(** [return this.sessions.get(sessionId) ?? null] *)
Definition getSession (now : Z) (sessionId : string)
    : M Sessions (option SessionData) :=
  gets (fun sessions => sessions !! sessionId).

Definition updateSession (now : Z) (sessionId : string) (updates : SessionUpdates)
    : M Sessions bool :=
  let! session := gets (fun sessions => sessions !! sessionId) in
  match session with
  | None => ret false
  | Some session =>
      do! modify (fun sessions => <[sessionId := spread session updates]> sessions) in
      ret true
  end.

(** [Map.prototype.delete] returns whether the key was present. *)
Definition deleteSession (now : Z) (sessionId : string) : M Sessions bool :=
  let! present := gets (fun sessions => bool_decide (is_Some (sessions !! sessionId))) in
  do! modify (fun sessions => delete sessionId sessions) in
  ret present.

Definition cleanupExpiredSessions (now : Z) : M Sessions unit :=
  modify (fun sessions => filter (fun kv => ¬ (expiresAt kv.2 < now)) sessions).

Definition store : SessionStore.t Sessions :=
  {| SessionStore.createSession := createSession;
     SessionStore.getSession := getSession;
     SessionStore.updateSession := updateSession;
     SessionStore.deleteSession := deleteSession;
     SessionStore.cleanupExpiredSessions := cleanupExpiredSessions |}.

End MemorySessionStore.

(* ===================================================================== *)
(** ** src/lib/server/auth/stores/redis.ts *)
(* ===================================================================== *)

Module RedisSessionStore.

(** A value held by the Redis server under a session key: the text that
    [JSON.stringify] made of a session, which [JSON.parse] reads back, or a
    text on which [JSON.parse] throws. *)
Inductive Payload :=
| Json (session : SessionData)
| Unparseable (raw : string).

(** A key of the server with the instant (epoch milliseconds) at which its
    time to live runs out. *)
Record Entry := { payload : Payload; expiry : Z }.

Abbreviation Keys := (gmap string Entry).

(** The server answers for a key until its time to live has run out. *)
Definition live (now : Z) (keys : Keys) (key : string) : option Payload :=
  match keys !! key with
  | Some entry => if now <? expiry entry then Some (payload entry) else None
  | None => None
  end.

(** [interface RedisClient]: SETEX, GET, DEL of one key. *)
Definition setex (now : Z) (key : string) (seconds : Z) (value : Payload)
    : M Keys unit :=
  modify (fun keys => <[key := {| payload := value; expiry := now + seconds * 1000 |}]> keys).

Definition get (now : Z) (key : string) : M Keys (option Payload) :=
  gets (fun keys => live now keys key).

Definition del (now : Z) (key : string) : M Keys Z :=
  let! removed := gets (fun keys => match live now keys key with Some _ => 1 | None => 0 end) in
  do! modify (fun keys => delete key keys) in
  ret removed.

(** [!data]: [null] and the empty text are falsy. *)
Definition noData (data : option Payload) : bool :=
  match data with
  | None => true
  | Some (Unparseable raw) => bool_decide (raw = "")
  | Some (Json _) => false
  end.

Section WithOptions.

(** [options.prefix ?? "session:"] *)
Variable prefix : string.

Definition getKey (sessionId : string) : string := prefix +:+ sessionId.

Definition createSession (now : Z) (sessionData : SessionData) : M Keys unit :=
  let key := getKey (sessionId sessionData) in
  let ttl := (expiresAt sessionData - now) / 1000 in
  setex now key (Z.max ttl 60) (Json sessionData).

Definition deleteSession (now : Z) (sessionId : string) : M Keys bool :=
  let key := getKey sessionId in
  let! deleted := del now key in
  ret (0 <? deleted).

Definition getSession (now : Z) (sessionId : string)
    : M Keys (option SessionData) :=
  let key := getKey sessionId in
  let! data := get now key in
  if noData data then ret None
  else
    match data with
    | Some (Json session) =>
        if expiresAt session <? now
        then do! deleteSession now sessionId in ret None
        else ret (Some session)
    | _ =>
        (* catch: JSON.parse threw *)
        do! deleteSession now sessionId in ret None
    end.

Definition updateSession (now : Z) (sessionId : string) (updates : SessionUpdates)
    : M Keys bool :=
  let! session := getSession now sessionId in
  match session with
  | None => ret false
  | Some session =>
      let updated := spread session updates in
      do! createSession now updated in
      ret true
  end.

(** Reads [KEYS] and [TTL] and logs a count; the keys are not written. *)
Definition cleanupExpiredSessions (now : Z) : M Keys unit := ret tt.

Definition store : SessionStore.t Keys :=
  {| SessionStore.createSession := createSession;
     SessionStore.getSession := getSession;
     SessionStore.updateSession := updateSession;
     SessionStore.deleteSession := deleteSession;
     SessionStore.cleanupExpiredSessions := cleanupExpiredSessions |}.

End WithOptions.

End RedisSessionStore.

(* ===================================================================== *)
(** ** src/lib/server/auth/stores/postgres.ts *)
(* ===================================================================== *)

Module PostgresSessionStore.

(** A row of the [sessions] table without its primary key [session_id]; the
    columns [created_at] and [updated_at] are never read. *)
Record Row := {
  user_id : string;
  access_token : option string;
  refresh_token : option string;
  id_token : option string;
  expires_at : Z
}.

(** The table, keyed by [session_id]. *)
Abbreviation Table := (gmap string Row).

Definition toRow (sessionData : SessionData) : Row :=
  {| user_id := userId sessionData;
     access_token := accessToken sessionData;
     refresh_token := refreshToken sessionData;
     id_token := idToken sessionData;
     expires_at := expiresAt sessionData |}.

Definition fromRow (session_id : string) (row : Row) : SessionData :=
  {| sessionId := session_id;
     userId := user_id row;
     accessToken := access_token row;
     refreshToken := refresh_token row;
     idToken := id_token row;
     expiresAt := expires_at row |}.

(** [INSERT ... ON CONFLICT (session_id) DO UPDATE SET ...] *)
Definition createSession (now : Z) (sessionData : SessionData) : M Table unit :=
  modify (fun table => <[sessionId sessionData := toRow sessionData]> table).

(** [SELECT ... WHERE session_id = $1 AND expires_at > $2] *)
Definition getSession (now : Z) (sessionId : string)
    : M Table (option SessionData) :=
  let! rows := gets (fun table =>
    match table !! sessionId with
    | Some row => if now <? expires_at row then [row] else []
    | None => []
    end) in
  match rows with
  | [] => ret None
  | row :: _ => ret (Some (fromRow sessionId row))
  end.

Definition updateSession (now : Z) (sessionId : string) (updates : SessionUpdates)
    : M Table bool :=
  let! session := getSession now sessionId in
  match session with
  | None => ret false
  | Some session =>
      let updated := spread session updates in
      do! createSession now updated in
      ret true
  end.

(** [DELETE FROM sessions WHERE session_id = $1], answering [rowCount > 0]. *)
Definition deleteSession (now : Z) (sessionId : string) : M Table bool :=
  let! rowCount := gets (fun table => match table !! sessionId with Some _ => 1 | None => 0 end) in
  do! modify (fun table => delete sessionId table) in
  ret (0 <? rowCount).

(** [DELETE FROM sessions WHERE expires_at < $1] *)
Definition cleanupExpiredSessions (now : Z) : M Table unit :=
  modify (fun table => filter (fun kv => ¬ (expires_at kv.2 < now)) table).

Definition store : SessionStore.t Table :=
  {| SessionStore.createSession := createSession;
     SessionStore.getSession := getSession;
     SessionStore.updateSession := updateSession;
     SessionStore.deleteSession := deleteSession;
     SessionStore.cleanupExpiredSessions := cleanupExpiredSessions |}.

End PostgresSessionStore.

(* ===================================================================== *)
(** ** src/lib/server/auth/bff.ts *)
(* ===================================================================== *)

Module BFFAuthService.

(** [interface TokenResponse] *)
Record TokenResponse := {
  access_token : string;
  refresh_token : option string;
  id_token : option string;
  expires_in : Z;
  token_type : string;
  sub : string
}.

(** What [await fetch(...)] gives for a request to the token endpoint: the
    promise rejects, or a response arrives with its [ok] flag, status line and
    JSON body. *)
Inductive FetchOutcome :=
| FetchRejected (e : string)
| Response (ok : bool) (status : Z) (statusText : string) (json : TokenResponse).

(** The service: its injected store and the identity provider it talks to,
    seen as the answer of [POST {issuer}/token] to a refresh token. *)
Record t (S : Type) := {
  sessionStore : SessionStore.t S;
  tokenEndpoint : string -> FetchOutcome
}.
Arguments sessionStore {S} _.
Arguments tokenEndpoint {S} _ _.

Section Service.

Context {S : Type} (service : t S).

(** [refreshToken]: throws when the request fails or the response is not ok. *)
Definition refreshToken (refreshToken : string) : M S TokenResponse :=
  match tokenEndpoint service refreshToken with
  | FetchRejected e => throw e
  | Response ok status statusText json =>
      if negb ok then throw "Token refresh failed" else ret json
  end.

(** The session methods delegate to the store and await its answer. *)
Definition getSession (now : Z) (sessionId : string) : M S (option SessionData) :=
  SessionStore.getSession (sessionStore service) now sessionId.

Definition createSession (now : Z) (sessionData : SessionData) : M S unit :=
  SessionStore.createSession (sessionStore service) now sessionData.

Definition updateSession (now : Z) (sessionId : string) (updates : SessionUpdates)
    : M S bool :=
  SessionStore.updateSession (sessionStore service) now sessionId updates.

Definition deleteSession (now : Z) (sessionId : string) : M S bool :=
  SessionStore.deleteSession (sessionStore service) now sessionId.

End Service.

(** [shouldRefreshToken]: [session.expiresAt - Date.now() < 300000] *)
Definition shouldRefreshToken (now : Z) (session : SessionData) : bool :=
  expiresAt session - now <? 300000.

End BFFAuthService.

(* ===================================================================== *)
(** ** src/lib/server/auth/middleware.ts *)
(* ===================================================================== *)

Module Middleware.

(** [event.locals.user] *)
Record User := { user_userId : string; user_sessionId : string }.

(** [event.locals] *)
Record Locals := { user : option User; localsAccessToken : option string }.

(** The part of a [RequestEvent] the middleware reads and writes. *)
Record Event := { cookies : gmap string string; locals : Locals }.

(** Truthiness of an optional string: [undefined] and the empty string are
    falsy. *)
Definition truthy (x : option string) : bool :=
  match x with
  | Some s => negb (bool_decide (s = ""))
  | None => false
  end.

(** [a || b] on optional strings. *)
Definition orElse (a b : option string) : option string :=
  if truthy a then a else b.

(** [event.cookies.delete("session_id", ...)] followed by clearing both
    locals: the unauthenticated outcome with the cookie cleared. *)
Definition clearSession (event : Event) : Event :=
  {| cookies := delete "session_id" (cookies event);
     locals := {| user := None; localsAccessToken := None |} |}.

(** Both locals cleared, cookies untouched. *)
Definition anonymous (event : Event) : Event :=
  {| cookies := cookies event;
     locals := {| user := None; localsAccessToken := None |} |}.

(** Identity and access token of [session] put into the locals. *)
Definition authenticated (event : Event) (session : SessionData) : Event :=
  {| cookies := cookies event;
     locals := {| user := Some {| user_userId := userId session;
                                  user_sessionId := sessionId session |};
                  localsAccessToken := accessToken session |} |}.

Section Handle.

Context {S : Type} (authService : BFFAuthService.t S).

(** [authMiddleware]; the result is the event handed to [resolve], and a
    [Throw] is an error that leaves the middleware. *)
Definition authMiddleware (now : Z) (event : Event) : M S Event :=
  let sessionId := cookies event !! "session_id" in
  match sessionId with
  | None => ret (anonymous event)
  | Some sessionId =>
    if negb (truthy (Some sessionId)) then ret (anonymous event)
    else
      let! session := BFFAuthService.getSession authService now sessionId in
      match session with
      | None => ret (clearSession event)
      | Some session =>
        if expiresAt session <? now then ret (clearSession event)
        else
          match BFFAuthService.shouldRefreshToken now session
                && truthy (refreshToken session), refreshToken session with
          | true, Some token =>
            tryCatch
              (let! newTokens := BFFAuthService.refreshToken authService token in
               let! updated :=
                 BFFAuthService.updateSession authService now sessionId
                   {| newSessionId := None;
                      newUserId := None;
                      newAccessToken :=
                        Some (Some (BFFAuthService.access_token newTokens));
                      newRefreshToken :=
                        Some (orElse (BFFAuthService.refresh_token newTokens)
                                     (refreshToken session));
                      newIdToken := None;
                      newExpiresAt :=
                        Some (now + BFFAuthService.expires_in newTokens * 1000) |} in
               if negb updated then ret (clearSession event)
               else
                 let! updatedSession :=
                   BFFAuthService.getSession authService now sessionId in
                 match updatedSession with
                 | Some updatedSession => ret (authenticated event updatedSession)
                 | None => ret event
                 end)
              (fun error => ret (clearSession event))
          | _, _ => ret (authenticated event session)
          end
      end
  end.

End Handle.

End Middleware.

(* ===================================================================== *)
(** ** A store whose backing service goes away *)
(* ===================================================================== *)

(** The asynchronous stores reject when their client cannot reach the server.
    [Outage.store base] answers like [base] for as many operations as its
    budget allows and rejects every operation after that with
    [ECONNREFUSED]; with budget 0 the server is unreachable from the start. *)
Module Outage.

Definition guarded {S A} (op : M S A) : M (S * nat) A :=
  fun st =>
    match st.2 with
    | O => (Throw "ECONNREFUSED", st)
    | Datatypes.S budget =>
        match op st.1 with
        | (result, base) => (result, (base, budget))
        end
    end.

Definition store {S} (base : SessionStore.t S) : SessionStore.t (S * nat) :=
  {| SessionStore.createSession now sessionData :=
       guarded (SessionStore.createSession base now sessionData);
     SessionStore.getSession now sessionId :=
       guarded (SessionStore.getSession base now sessionId);
     SessionStore.updateSession now sessionId updates :=
       guarded (SessionStore.updateSession base now sessionId updates);
     SessionStore.deleteSession now sessionId :=
       guarded (SessionStore.deleteSession base now sessionId);
     SessionStore.cleanupExpiredSessions now :=
       guarded (SessionStore.cleanupExpiredSessions base now) |}.

End Outage.

(* ===================================================================== *)
(** ** PKCE: [BFFAuthService.generatePKCE] and Node's [crypto] *)
(* ===================================================================== *)

Module Crypto.

(** A byte is an integer from 0 to 255; a [Buffer] is a list of bytes. *)
Definition isByte (b : Z) : Prop := 0 <= b < 256.

(** *** [Buffer.toString("base64url")]: RFC 4648 section 5, without padding *)

Definition alphabet : list ascii :=
  String.list_ascii_of_string
    "ABCDEFGHIJKLMNOPQRSTUVWXYZabcdefghijklmnopqrstuvwxyz0123456789-_".

(** The character of a 6-bit group. *)
Definition sextet (i : Z) : ascii :=
  nth (Z.to_nat (Z.land i 63)) alphabet "A"%char.

Fixpoint base64url (bytes : list Z) : string :=
  match bytes with
  | [] => EmptyString
  | [a] =>
      String (sextet (Z.shiftr a 2))
        (String (sextet (Z.shiftl (Z.land a 3) 4)) EmptyString)
  | [a; b] =>
      String (sextet (Z.shiftr a 2))
        (String (sextet (Z.lor (Z.shiftl (Z.land a 3) 4) (Z.shiftr b 4)))
           (String (sextet (Z.shiftl (Z.land b 15) 2)) EmptyString))
  | a :: b :: c :: rest =>
      String (sextet (Z.shiftr a 2))
        (String (sextet (Z.lor (Z.shiftl (Z.land a 3) 4) (Z.shiftr b 4)))
           (String (sextet (Z.lor (Z.shiftl (Z.land b 15) 2) (Z.shiftr c 6)))
              (String (sextet (Z.land c 63)) (base64url rest))))
  end.

(** The integers from 0 up to [n], excluded. *)
Definition range (n : nat) : list Z := map Z.of_nat (seq 0 n).

(** Reading base64url text back ([Buffer.from(text, "base64url")]); it is
    used to state that a verifier determines the bytes it was made from. *)
Fixpoint indexOf (c : ascii) (chars : list ascii) (i : Z) : option Z :=
  match chars with
  | [] => None
  | x :: rest => if Ascii.eqb x c then Some i else indexOf c rest (i + 1)
  end.

Definition sextetValue (c : ascii) : option Z := indexOf c alphabet 0.

Definition firstByte (i1 i2 : Z) : Z := Z.lor (Z.shiftl i1 2) (Z.shiftr i2 4).

Definition secondByte (i2 i3 : Z) : Z :=
  Z.lor (Z.shiftl (Z.land i2 15) 4) (Z.shiftr i3 2).

Definition thirdByte (i3 i4 : Z) : Z := Z.lor (Z.shiftl (Z.land i3 3) 6) i4.

Fixpoint base64urlDecode (text : string) : option (list Z) :=
  match text with
  | EmptyString => Some []
  | String c1 EmptyString => None
  | String c1 (String c2 EmptyString) =>
      match sextetValue c1, sextetValue c2 with
      | Some i1, Some i2 => Some [firstByte i1 i2]
      | _, _ => None
      end
  | String c1 (String c2 (String c3 EmptyString)) =>
      match sextetValue c1, sextetValue c2, sextetValue c3 with
      | Some i1, Some i2, Some i3 => Some [firstByte i1 i2; secondByte i2 i3]
      | _, _, _ => None
      end
  | String c1 (String c2 (String c3 (String c4 rest))) =>
      match sextetValue c1, sextetValue c2, sextetValue c3, sextetValue c4,
            base64urlDecode rest with
      | Some i1, Some i2, Some i3, Some i4, Some bytes =>
          Some (firstByte i1 i2 :: secondByte i2 i3 :: thirdByte i3 i4 :: bytes)
      | _, _, _, _, _ => None
      end
  end.

(** The bytes that [hash.update(text)] feeds into the hash: the UTF-8
    encoding of the text, which for the ASCII text of a verifier is its
    character codes. *)
Fixpoint utf8 (text : string) : list Z :=
  match text with
  | EmptyString => []
  | String c rest => Z.of_N (N_of_ascii c) :: utf8 rest
  end.

(** *** [crypto.createHash("sha256")]: SHA-256 of FIPS 180-4, on 32-bit words
    held in [Z] and reduced modulo 2^32 *)

Definition w32 (x : Z) : Z := x mod 2 ^ 32.

Definition add32 (x y : Z) : Z := w32 (x + y).

Definition rotr (n x : Z) : Z :=
  w32 (Z.lor (Z.shiftr x n) (Z.shiftl x (32 - n))).

Definition not32 (x : Z) : Z := Z.lxor x (2 ^ 32 - 1).

Definition Ch (x y z : Z) : Z := Z.lxor (Z.land x y) (Z.land (not32 x) z).

Definition Maj (x y z : Z) : Z :=
  Z.lxor (Z.lxor (Z.land x y) (Z.land x z)) (Z.land y z).

Definition bigSigma0 (x : Z) : Z := Z.lxor (Z.lxor (rotr 2 x) (rotr 13 x)) (rotr 22 x).

Definition bigSigma1 (x : Z) : Z := Z.lxor (Z.lxor (rotr 6 x) (rotr 11 x)) (rotr 25 x).

Definition smallSigma0 (x : Z) : Z :=
  Z.lxor (Z.lxor (rotr 7 x) (rotr 18 x)) (Z.shiftr x 3).

Definition smallSigma1 (x : Z) : Z :=
  Z.lxor (Z.lxor (rotr 17 x) (rotr 19 x)) (Z.shiftr x 10).

(** The constants of FIPS 180-4 are taken from the first primes: the round
    constants are the first 32 bits of the fractional parts of the cube roots
    of the first 64 primes, the initial hash value those of the square roots
    of the first 8. *)
Definition isPrime (n : Z) : bool :=
  forallb (fun d => negb (n mod Z.of_nat d =? 0)) (seq 2 (Z.to_nat n - 2)).

Definition primes : list Z :=
  Eval vm_compute in firstn 64 (filter (fun n => isPrime n = true)
                                 (map Z.of_nat (seq 2 310))).

(** The integer cube root, found bit by bit from [bit] downwards. *)
Fixpoint cubeRootFrom (bit : nat) (n r : Z) : Z :=
  let candidate := r + 2 ^ Z.of_nat bit in
  let r' := if candidate * candidate * candidate <=? n then candidate else r in
  match bit with
  | O => r'
  | Datatypes.S bit' => cubeRootFrom bit' n r'
  end.

Definition fractionOfCubeRoot (p : Z) : Z :=
  w32 (cubeRootFrom 40 (p * 2 ^ 96) 0).

Definition fractionOfSquareRoot (p : Z) : Z :=
  w32 (Z.sqrt (p * 2 ^ 64)).

Definition K : list Z := Eval vm_compute in map fractionOfCubeRoot primes.

(** The eight words of the hash state. *)
Record HashState := {
  h0 : Z; h1 : Z; h2 : Z; h3 : Z; h4 : Z; h5 : Z; h6 : Z; h7 : Z
}.

Definition initialWord (i : nat) : Z :=
  fractionOfSquareRoot (nth i primes 0).

Definition initialState : HashState :=
  Eval vm_compute in
    {| h0 := initialWord 0; h1 := initialWord 1; h2 := initialWord 2;
       h3 := initialWord 3; h4 := initialWord 4; h5 := initialWord 5;
       h6 := initialWord 6; h7 := initialWord 7 |}.

(** Big-endian bytes of a word and words of bytes. *)
Definition bytesOfWord (w : Z) : list Z :=
  [Z.land (Z.shiftr w 24) 255; Z.land (Z.shiftr w 16) 255;
   Z.land (Z.shiftr w 8) 255; Z.land w 255].

Fixpoint wordsOfBytes (bytes : list Z) : list Z :=
  match bytes with
  | a :: b :: c :: d :: rest =>
      Z.lor (Z.lor (Z.shiftl a 24) (Z.shiftl b 16)) (Z.lor (Z.shiftl c 8) d)
      :: wordsOfBytes rest
  | _ => []
  end.

(** Padding: a one bit, zero bits up to 56 modulo 64 bytes, and the length
    in bits as a 64-bit big-endian integer. *)
Definition pad (message : list Z) : list Z :=
  let len := Z.of_nat (length message) in
  let zeros := Z.to_nat ((55 - len) mod 64) in
  let bits := 8 * len in
  message ++ [128] ++ repeat 0 zeros
    ++ bytesOfWord (Z.shiftr bits 32) ++ bytesOfWord (Z.land bits (2 ^ 32 - 1)).

(** The message schedule: [n] more words after the words [w] so far. *)
Fixpoint schedule (n : nat) (w : list Z) : list Z :=
  match n with
  | O => w
  | Datatypes.S n' =>
      let t := length w in
      let at_ i := nth (t - i) w 0 in
      schedule n'
        (w ++ [add32 (add32 (smallSigma1 (at_ 2%nat)) (at_ 7%nat))
                     (add32 (smallSigma0 (at_ 15%nat)) (at_ 16%nat))])
  end.

(** One round of the compression function. *)
Definition round (s : HashState) (kw : Z * Z) : HashState :=
  let t1 := add32 (add32 (add32 (h7 s) (bigSigma1 (h4 s)))
                         (add32 (Ch (h4 s) (h5 s) (h6 s)) kw.1)) kw.2 in
  let t2 := add32 (bigSigma0 (h0 s)) (Maj (h0 s) (h1 s) (h2 s)) in
  {| h0 := add32 t1 t2; h1 := h0 s; h2 := h1 s; h3 := h2 s;
     h4 := add32 (h3 s) t1; h5 := h4 s; h6 := h5 s; h7 := h6 s |}.

Definition compress (s : HashState) (block : list Z) : HashState :=
  let w := schedule 48 block in
  let r := fold_left round (combine K w) s in
  {| h0 := add32 (h0 s) (h0 r); h1 := add32 (h1 s) (h1 r);
     h2 := add32 (h2 s) (h2 r); h3 := add32 (h3 s) (h3 r);
     h4 := add32 (h4 s) (h4 r); h5 := add32 (h5 s) (h5 r);
     h6 := add32 (h6 s) (h6 r); h7 := add32 (h7 s) (h7 r) |}.

(** The blocks of 16 words are consumed one after the other; [fuel] bounds
    their number. *)
Fixpoint hashBlocks (fuel : nat) (s : HashState) (words : list Z) : HashState :=
  match fuel, words with
  | Datatypes.S fuel', _ :: _ =>
      hashBlocks fuel' (compress s (firstn 16 words)) (skipn 16 words)
  | _, _ => s
  end.

Definition digestBytes (s : HashState) : list Z :=
  bytesOfWord (h0 s) ++ bytesOfWord (h1 s) ++ bytesOfWord (h2 s)
  ++ bytesOfWord (h3 s) ++ bytesOfWord (h4 s) ++ bytesOfWord (h5 s)
  ++ bytesOfWord (h6 s) ++ bytesOfWord (h7 s).

Definition sha256 (message : list Z) : list Z :=
  let words := wordsOfBytes (pad message) in
  digestBytes (hashBlocks (length words) initialState words).

End Crypto.

Module PKCE.

(** [generatePKCE]; [randomBytes] is what [crypto.randomBytes(32)] returned. *)
Definition generatePKCE (randomBytes : list Z) : string * string :=
  let codeVerifier := Crypto.base64url randomBytes in
  let codeChallenge := Crypto.base64url (Crypto.sha256 (Crypto.utf8 codeVerifier)) in
  (codeVerifier, codeChallenge).

(** The check of the [S256] method (RFC 7636 section 4.6): the challenge is
    recomputed from the verifier and compared with the one sent. *)
Definition verifyS256 (codeVerifier codeChallenge : string) : bool :=
  bool_decide
    (Crypto.base64url (Crypto.sha256 (Crypto.utf8 codeVerifier)) = codeChallenge).

(** The characters allowed in a URL without escaping that base64url uses. *)
Definition urlSafeChar (c : ascii) : bool :=
  let n := Z.of_N (N_of_ascii c) in
  ((65 <=? n) && (n <=? 90)) || ((97 <=? n) && (n <=? 122))
  || ((48 <=? n) && (n <=? 57)) || (n =? 45) || (n =? 95).

Fixpoint urlSafe (text : string) : bool :=
  match text with
  | EmptyString => true
  | String c rest => urlSafeChar c && urlSafe rest
  end.

End PKCE.

(* ===================================================================== *)
(** ** A request scenario used to exercise the middleware *)
(* ===================================================================== *)

Module Scenario.

Import Middleware.

(** A request with the session cookie [a], at the clock reading 1000000. *)
Definition event : Event :=
  {| cookies := {[ "session_id" := "a" ]};
     locals := {| user := None; localsAccessToken := None |} |}.

(** A session one minute from expiry, with or without a refresh token. *)
Definition session (refresh : option string) : SessionData :=
  {| sessionId := "a"; userId := "u"; accessToken := Some "at";
     refreshToken := refresh; idToken := None; expiresAt := 1060000 |}.

(** A provider that answers every refresh with new tokens. *)
Definition newTokens : BFFAuthService.TokenResponse :=
  {| BFFAuthService.access_token := "at2";
     BFFAuthService.refresh_token := None;
     BFFAuthService.id_token := None;
     BFFAuthService.expires_in := 3600;
     BFFAuthService.token_type := "Bearer";
     BFFAuthService.sub := "u" |}.

Definition provider (token : string) : BFFAuthService.FetchOutcome :=
  BFFAuthService.Response true 200 "OK" newTokens.

Definition memoryService : BFFAuthService.t MemorySessionStore.Sessions :=
  {| BFFAuthService.sessionStore := MemorySessionStore.store;
     BFFAuthService.tokenEndpoint := provider |}.

(** The key-value store behind a server that stops answering. *)
Definition outageService : BFFAuthService.t (RedisSessionStore.Keys * nat) :=
  {| BFFAuthService.sessionStore := Outage.store (RedisSessionStore.store "session:");
     BFFAuthService.tokenEndpoint := provider |}.

(** The key under which the key-value store holds [session]. *)
Definition stored (session : SessionData) : RedisSessionStore.Keys :=
  {[ "session:a" := {| RedisSessionStore.payload := RedisSessionStore.Json session;
                       RedisSessionStore.expiry := expiresAt session |} ]}.

End Scenario.

(* ===================================================================== *)
(** ** Runs of requests through the rate-limiting handler *)
(* ===================================================================== *)

Module Traffic.

Import RateLimiter.

(** One request of a run: when it arrives, from which address, for which
    path, and the status of the response that [resolve(event)] gives it. *)
Record Arrival := {
  at_ : Z;
  from : string;
  pathname : string;
  responseStatus : Z
}.

(** The handler of [rateLimitMiddleware] applied to the requests of a run in
    their order of arrival, on the records of one limiter. *)
Fixpoint serve (config : RateLimitOptions) (routes : option (list string))
    (arrivals : list Arrival) (records : Records) : list Outcome * Records :=
  match arrivals with
  | [] => ([], records)
  | a :: rest =>
      let '(outcome, records1) :=
        rateLimitMiddleware config routes (pathname a) (from a)
          (responseStatus a) (at_ a) records in
      let '(outcomes, records2) := serve config routes rest records1 in
      (outcome :: outcomes, records2)
  end.

(** [routes && !routes.some(route => pathname.startsWith(route))] is false:
    the limiter applies to the path. *)
Definition scoped (routes : option (list string)) (pathname : string) : bool :=
  match routes with
  | Some rs => existsb (startsWith pathname) rs
  | None => true
  end.


(** Every record counts between 0 and [limit]. *)
Definition countsWithin (limit : Z) (records : Records) : Prop :=
  forall key r, records !! key = Some r -> 0 <= count r <= limit.

End Traffic.

(* ===================================================================== *)
(** ** A store shared with other requests *)
(* ===================================================================== *)

(** Every store operation of the middleware is awaited, and between two of
    them other requests may work on the same store.  [Interleaving.store base]
    is [base] with a schedule of such foreign steps: before each operation of
    the request under study the next foreign step, if any, is applied to the
    store. *)
Module Interleaving.

Definition interleaved {S A} (op : M S A) : M (S * list (S -> S)) A :=
  fun st =>
    match st.2 with
    | [] =>
        match op st.1 with
        | (result, base) => (result, (base, []))
        end
    | foreign :: schedule =>
        match op (foreign st.1) with
        | (result, base) => (result, (base, schedule))
        end
    end.

Definition store {S} (base : SessionStore.t S) : SessionStore.t (S * list (S -> S)) :=
  {| SessionStore.createSession now sessionData :=
       interleaved (SessionStore.createSession base now sessionData);
     SessionStore.getSession now sessionId :=
       interleaved (SessionStore.getSession base now sessionId);
     SessionStore.updateSession now sessionId updates :=
       interleaved (SessionStore.updateSession base now sessionId updates);
     SessionStore.deleteSession now sessionId :=
       interleaved (SessionStore.deleteSession base now sessionId);
     SessionStore.cleanupExpiredSessions now :=
       interleaved (SessionStore.cleanupExpiredSessions base now) |}.

End Interleaving.

(* ===================================================================== *)
(** ** Further request scenarios *)
(* ===================================================================== *)

Module Scenario2.

Import Middleware.

(** A request without cookies. *)
Definition bareEvent : Event :=
  {| cookies := ∅; locals := {| user := None; localsAccessToken := None |} |}.

(** A provider that answers every refresh with 400 Bad Request. *)
Definition refusingProvider (token : string) : BFFAuthService.FetchOutcome :=
  BFFAuthService.Response false 400 "Bad Request" Scenario.newTokens.

Definition refusedService : BFFAuthService.t MemorySessionStore.Sessions :=
  {| BFFAuthService.sessionStore := MemorySessionStore.store;
     BFFAuthService.tokenEndpoint := refusingProvider |}.

(** The in-memory store shared with another request. *)
Definition sharedService
    : BFFAuthService.t (MemorySessionStore.Sessions
                        * list (MemorySessionStore.Sessions
                                -> MemorySessionStore.Sessions)) :=
  {| BFFAuthService.sessionStore := Interleaving.store MemorySessionStore.store;
     BFFAuthService.tokenEndpoint := Scenario.provider |}.

(** The other request logs the session [a] out. *)
Definition logsOut (sessions : MemorySessionStore.Sessions)
    : MemorySessionStore.Sessions :=
  delete "a" sessions.

Definition idles (sessions : MemorySessionStore.Sessions)
    : MemorySessionStore.Sessions := sessions.

End Scenario2.

(* ===================================================================== *)
(** ** OIDC calls of src/lib/server/auth/bff.ts *)
(* ===================================================================== *)

Module OIDC.

(** [interface OIDCConfig] *)
Record OIDCConfig := {
  issuer : string;
  clientId : string;
  clientSecret : string;
  redirectUri : string;
  scopes : list string
}.

(** *** [new URLSearchParams({...}).toString()]: the
    application/x-www-form-urlencoded serializer *)

Definition code (c : ascii) : Z := Z.of_N (N_of_ascii c).

(** The bytes the serializer leaves as they are: ASCII letters and digits
    and [*], [-], [.], [_]. *)
Definition unreserved (c : ascii) : bool :=
  let n := code c in
  ((65 <=? n) && (n <=? 90)) || ((97 <=? n) && (n <=? 122))
  || ((48 <=? n) && (n <=? 57))
  || (n =? 42) || (n =? 45) || (n =? 46) || (n =? 95).

Definition upperHexDigit (n : Z) : ascii :=
  nth (Z.to_nat n) (String.list_ascii_of_string "0123456789ABCDEF") "0"%char.

Definition encodeByte (c : ascii) : string :=
  if unreserved c then String c EmptyString
  else if code c =? 32 then "+"
  else String "%" (String (upperHexDigit (Z.shiftr (code c) 4))
                     (String (upperHexDigit (Z.land (code c) 15)) EmptyString)).

Fixpoint urlencode (text : string) : string :=
  match text with
  | EmptyString => EmptyString
  | String c rest => encodeByte c +:+ urlencode rest
  end.

(** The characters an encoded name or value is made of: the unreserved
    ones, [+] and [%]. *)
Definition encodedChar (c : ascii) : bool :=
  unreserved c || (code c =? 43) || (code c =? 37).

Fixpoint allChars (p : ascii -> bool) (text : string) : bool :=
  match text with
  | EmptyString => true
  | String c rest => p c && allChars p rest
  end.

Definition serialize (params : list (string * string)) : string :=
  String.concat "&" (map (fun kv => urlencode kv.1 +:+ "=" +:+ urlencode kv.2) params).

(** [getAuthUrl] *)
Definition getAuthUrl (config : OIDCConfig) (state codeChallenge : string) : string :=
  let params :=
    [("response_type", "code");
     ("client_id", clientId config);
     ("redirect_uri", redirectUri config);
     ("scope", String.concat " " (scopes config));
     ("state", state);
     ("code_challenge", codeChallenge);
     ("code_challenge_method", "S256")] in
  issuer config +:+ "/auth?" +:+ serialize params.

(** [exchangeCodeForTokens]: the answer of [POST {issuer}/token] to a code and
    its verifier; throws when the request fails or the response is not ok. *)
Definition exchangeCodeForTokens
    (exchangeEndpoint : string -> string -> BFFAuthService.FetchOutcome)
    (code codeVerifier : string) : Result BFFAuthService.TokenResponse :=
  match exchangeEndpoint code codeVerifier with
  | BFFAuthService.FetchRejected e => Throw e
  | BFFAuthService.Response ok status statusText json =>
      if negb ok then Throw "Token exchange failed" else Ok json
  end.

(** What [await fetch(...)] gives for [POST {issuer}/revoke]. *)
Inductive RevokeOutcome :=
| RevokeRejected (e : string)
| RevokeAnswered (ok : bool).

(** [revokeToken]: the request is awaited inside [try]; the [catch] logs. *)
Definition revokeToken {S} (revokeEndpoint : string -> RevokeOutcome)
    (token : string) : M S unit :=
  tryCatch
    (match revokeEndpoint token with
     | RevokeRejected e => throw e
     | RevokeAnswered _ => ret tt
     end)
    (fun error => ret tt).

End OIDC.

(* ===================================================================== *)
(** ** The routes: login, callback, logout *)
(* ===================================================================== *)

Module Routes.

Import Utils.

(** [Buffer.toString("hex")] *)
Definition hexDigit (n : Z) : ascii :=
  nth (Z.to_nat n) (String.list_ascii_of_string "0123456789abcdef") "0"%char.

Fixpoint hex (bytes : list Z) : string :=
  match bytes with
  | [] => EmptyString
  | b :: rest =>
      String (hexDigit (Z.land (Z.shiftr b 4) 15))
        (String (hexDigit (Z.land b 15)) (hex rest))
  end.

(** [generateSecureState]; [randomBytes] is what [crypto.randomBytes(32)]
    returned. *)
Definition generateSecureState (randomBytes : list Z) : string := hex randomBytes.

(** What [GET /auth/login] does: the [oauth_state] cookie it sets, seen as
    what [JSON.parse] reads back from the text that [JSON.stringify] wrote,
    and the address it redirects to. *)
Record LoginResponse := {
  oauthStateCookie : ParseOutcome;
  redirectTo : string
}.

Definition login (config : OIDC.OIDCConfig) (pkceBytes stateBytes : list Z)
    (now : Z) : LoginResponse :=
  let '(codeVerifier, codeChallenge) := PKCE.generatePKCE pkceBytes in
  let state := generateSecureState stateBytes in
  {| oauthStateCookie :=
       Parsed (JsObject [("state", JsString state);
                         ("codeVerifier", JsString codeVerifier);
                         ("timestamp", JsNumber now)]);
     redirectTo := OIDC.getAuthUrl config state codeChallenge |}.

(** What a handler did to the cookies of the response. *)
Record Jar := {
  sessionCookie : option string;      (* cookies.set("session_id", ...) *)
  oauthStateDeleted : bool            (* cookies.delete("oauth_state", ...) *)
}.

Definition untouched : Jar := {| sessionCookie := None; oauthStateDeleted := false |}.

(** What leaves a [try] block or a handler by [throw]. *)
Inductive Thrown :=
| Redirect (status : Z) (location : string)
| Failure (e : string).

Section Callback.

Context {S : Type} (authService : BFFAuthService.t S).

Variable exchangeEndpoint : string -> string -> BFFAuthService.FetchOutcome.

(** The [try] block of [GET /auth/callback].  [uuid] is what
    [crypto.randomUUID()] returned.  [createSession] is called without
    [await]: what it does to the store is done, a rejection does not reach the
    handler. The block ends by throwing the redirect to the root. *)
Definition callbackAttempt (uuid : string) (now : Z) (code codeVerifier : string)
    (st : S) : Thrown * Jar * S :=
  match OIDC.exchangeCodeForTokens exchangeEndpoint code codeVerifier with
  | Throw e => (Failure e, untouched, st)
  | Ok tokens =>
      let sessionData :=
        {| sessionId := uuid;
           userId := BFFAuthService.sub tokens;
           accessToken := Some (BFFAuthService.access_token tokens);
           refreshToken := BFFAuthService.refresh_token tokens;
           idToken := BFFAuthService.id_token tokens;
           expiresAt := now + BFFAuthService.expires_in tokens * 1000 |} in
      let st' := (BFFAuthService.createSession authService now sessionData st).2 in
      (Redirect 302 "/",
       {| sessionCookie := Some uuid; oauthStateDeleted := true |}, st')
  end.

(** [GET /auth/callback].  The [catch] clause of the handler receives
    whatever the [try] block throws, its closing redirect included, and
    throws the redirect to [/?error=auth_failed]. *)
Definition callback (uuid : string) (now : Z) (code state : option string)
    (storedData : option ParseOutcome) (st : S) : Thrown * Jar * S :=
  match callbackValidation now code state storedData with
  | RedirectError kind => (Redirect 302 ("/?error=" +:+ kind), untouched, st)
  | Exchange c codeVerifier =>
      match callbackAttempt uuid now c codeVerifier st with
      | (thrown, jar, st') => (Redirect 302 "/?error=auth_failed", jar, st')
      end
  end.

Variable revokeEndpoint : string -> OIDC.RevokeOutcome.

(** [POST /auth/logout]: the cookies after the handler; it ends by the
    redirect to the root.  An error of the store leaves the handler before the
    cookie is deleted. *)
Definition logout (now : Z) (cookies : gmap string string)
    (user : option Middleware.User) : M S (gmap string string) :=
  let sessionId := cookies !! "session_id" in
  do! match sessionId, user with
      | Some sessionId, Some _ =>
          if Middleware.truthy (Some sessionId)
          then
            let! session := BFFAuthService.getSession authService now sessionId in
            do! match session with
                | Some session =>
                    match Middleware.truthy (refreshToken session),
                          refreshToken session with
                    | true, Some token => OIDC.revokeToken revokeEndpoint token
                    | _, _ => ret tt
                    end
                | None => ret tt
                end in
            do! BFFAuthService.deleteSession authService now sessionId in
            ret tt
          else ret tt
      | _, _ => ret tt
      end in
  ret (delete "session_id" cookies).

End Callback.

End Routes.

(* ===================================================================== *)
(** ** A login and callback scenario *)
(* ===================================================================== *)

Module RouteScenario.

Import Utils Routes Scenario.

(** The provider exchanges every code for [newTokens]; the cookie is the one
    a login set at 1000. *)
Definition exchanges (code verifier : string) : BFFAuthService.FetchOutcome :=
  BFFAuthService.Response true 200 "OK" newTokens.

Definition refuses (code verifier : string) : BFFAuthService.FetchOutcome :=
  BFFAuthService.Response false 400 "Bad Request" newTokens.

Definition config : OIDC.OIDCConfig :=
  {| OIDC.issuer := "https://idp.example"; OIDC.clientId := "web";
     OIDC.clientSecret := "secret";
     OIDC.redirectUri := "http://localhost:5173/auth/callback";
     OIDC.scopes := ["openid"] |}.

Definition cookie : ParseOutcome :=
  oauthStateCookie (login config (repeat 7 32) (repeat 171 32) 1000).

Definition state : string := generateSecureState (repeat 171 32).

Definition created : SessionData :=
  {| sessionId := "id-1"; userId := "u"; accessToken := Some "at2";
     refreshToken := None; idToken := None; expiresAt := 2000 + 3600 * 1000 |}.

End RouteScenario.

(* ===================================================================== *)
(** * Properties *)
(* ===================================================================== *)

(** ** Rate limiter *)

(** Case analysis on every [<?] test of the goal, closed by arithmetic. *)
Ltac ltb_cases :=
  repeat match goal with
         | |- context [?a <? ?b] => destruct (Z.ltb_spec a b)
         end;
  try reflexivity; try lia.

Section RateLimiterProperties.

Import RateLimiter.

Variable options : RateLimitOptions.
Variable ip : string.

Lemma check_reset (now : Z) (records : Records) :
  needsReset now (records !! ip) = true ->
  check options now ip records
  = (resultOf options (freshRecord options now),
     <[ip := freshRecord options now]> records).
Proof.
  intros Hreset. unfold check.
  destruct (records !! ip) as [r|] eqn:Hr.
  - rewrite Hreset. reflexivity.
  - reflexivity.
Qed.

Lemma check_in_window (now : Z) (records : Records) (r : RateLimitRecord) :
  records !! ip = Some r ->
  ~ (resetTime r < now) ->
  check options now ip records = (resultOf options r, records).
Proof.
  intros Hr Hwin. unfold check. rewrite Hr. simpl.
  replace (resetTime r <? now) with false by (symmetry; apply Z.ltb_ge; lia).
  reflexivity.
Qed.

Lemma increment_lookup (records : Records) (r : RateLimitRecord) :
  records !! ip = Some r ->
  (increment ip records) !! ip
  = Some {| count := count r + 1; resetTime := resetTime r |}.
Proof.
  intros Hr. unfold increment. rewrite lookup_alter_eq, Hr. reflexivity.
Qed.

Lemma requests_in_window (times : list Z) :
  forall (records : Records) (r : RateLimitRecord) (i : Z),
    records !! ip = Some r ->
    0 <= i ->
    count r = Z.min i (Z.max 0 (maxRequests options)) ->
    Forall (fun t => t <= resetTime r) times ->
    (requests options ip times records).1
    = expected options (resetTime r) i (length times).
Proof.
  induction times as [|t times IH]; intros records r i Hr Hi Hcount Hwin.
  - reflexivity.
  - apply Forall_cons in Hwin as [Ht Hwin].
    cbn [requests length expected]. unfold checkThenIncrement.
    rewrite (check_in_window t records r Hr) by lia.
    cbn [resultOf allowed].
    destruct (count r <? maxRequests options) eqn:Hlt.
    + pose proof (increment_lookup records r Hr) as Hinc.
      specialize (IH (increment ip records) _ (i + 1) Hinc ltac:(lia)).
      cbn [count resetTime] in IH.
      destruct (requests options ip times (increment ip records)) as [ress recs'].
      cbn [fst] in *. rewrite IH; [| lia | assumption].
      apply Z.ltb_lt in Hlt.
      f_equal. unfold resultOf. f_equal; [ltb_cases | lia].
    + specialize (IH records r (i + 1) Hr ltac:(lia)).
      destruct (requests options ip times records) as [ress recs'].
      cbn [fst] in *. rewrite IH; [| lia | assumption].
      apply Z.ltb_ge in Hlt.
      f_equal. unfold resultOf. f_equal; [ltb_cases | lia].
Qed.

Lemma expected_length (reset i : Z) (n : nat) :
  length (expected options reset i n) = n.
Proof. revert i; induction n; intros i; simpl; auto. Qed.

Lemma expected_lookup (reset : Z) (n : nat) :
  forall (i : Z) (k : nat) (res : CheckResult),
    expected options reset i n !! k = Some res ->
    res = {| allowed := i + Z.of_nat k <? maxRequests options;
             remaining := Z.max 0 (maxRequests options - (i + Z.of_nat k) - 1);
             resultResetTime := reset |}.
Proof.
  induction n as [|n IH]; intros i k res Hk; [discriminate|].
  destruct k as [|k]; simpl in Hk.
  - inversion Hk; subst. f_equal; [f_equal; lia | f_equal; lia].
  - apply IH in Hk. subst res. f_equal; [f_equal; lia | f_equal; lia].
Qed.

(** Among the expected results, the admitted ones are the first
    [maxRequests]. *)
Lemma expected_admitted (reset : Z) (n : nat) :
  forall i : Z,
    0 <= i ->
    length (filter (fun res => allowed res = true) (expected options reset i n))
    = Nat.min n (Z.to_nat (maxRequests options - i)).
Proof.
  induction n as [|n IH]; intros i Hi; [reflexivity|].
  cbn [expected]. rewrite filter_cons. cbn [allowed].
  destruct (decide ((i <? maxRequests options) = true)) as [Hlt|Hge].
  - cbn [length]. rewrite IH by lia.
    replace (Z.to_nat (maxRequests options - i))
      with (Datatypes.S (Z.to_nat (maxRequests options - (i + 1)))) by lia.
    reflexivity.
  - rewrite IH by lia. lia.
Qed.

End RateLimiterProperties.

Section RateLimiterClaims.

Import RateLimiter.

Lemma needsReset_cases (now : Z) (records : Records) (ip : string) :
  needsReset now (records !! ip) = true
  <-> records !! ip = None
      \/ exists r, records !! ip = Some r /\ resetTime r < now.
Proof.
  unfold needsReset. destruct (records !! ip) as [r|]; split.
  - intros H%Z.ltb_lt. right. eauto.
  - intros [H|(r' & H & Hlt)]; [discriminate|]. inversion H; subst.
    apply Z.ltb_lt. assumption.
  - auto.
  - auto.
Qed.

(** C4. [check] of a key without a record, or with a record whose window has
    elapsed, stores [count = 0] and [resetTime = now + windowMs]; in every case
    it answers [allowed = (count < maxRequests)],
    [remaining = max(0, maxRequests - count - 1)] and the record's [resetTime].
    Hence for requests of one key that each run [check] and then, when
    admitted, [increment], the first of them opening a window at [t0] and the
    others falling before the window's boundary: the [k]-th request (from 0)
    is admitted exactly when [k < maxRequests], so that exactly [maxRequests]
    are admitted when that many arrive, and every later one is answered
    [allowed = false] with [remaining = 0]. *)
Theorem check_admits_maxRequests_per_window
    (options : RateLimitOptions) (ip : string) (t0 : Z) (times : list Z)
    (records : Records) :
  (records !! ip = None \/ exists r, records !! ip = Some r /\ resetTime r < t0) ->
  Forall (fun t => t0 <= t <= t0 + windowMs options) times ->
  (forall now recs,
      (recs !! ip = None \/ exists r, recs !! ip = Some r /\ resetTime r < now) ->
      check options now ip recs
      = ({| allowed := 0 <? maxRequests options;
            remaining := Z.max 0 (maxRequests options - 0 - 1);
            resultResetTime := now + windowMs options |},
         <[ip := {| count := 0; resetTime := now + windowMs options |}]> recs))
  /\ (forall now recs r,
         recs !! ip = Some r -> ~ (resetTime r < now) ->
         check options now ip recs
         = ({| allowed := count r <? maxRequests options;
               remaining := Z.max 0 (maxRequests options - count r - 1);
               resultResetTime := resetTime r |}, recs))
  /\ length (requests options ip (t0 :: times) records).1 = Datatypes.S (length times)
  /\ (forall (k : nat) res,
         (requests options ip (t0 :: times) records).1 !! k = Some res ->
         allowed res = bool_decide (Z.of_nat k < maxRequests options)
         /\ remaining res = Z.max 0 (maxRequests options - Z.of_nat k - 1)
         /\ resultResetTime res = t0 + windowMs options)
  /\ length (filter (fun res => allowed res = true)
                    (requests options ip (t0 :: times) records).1)
     = Nat.min (Datatypes.S (length times)) (Z.to_nat (maxRequests options))
  /\ (forall (k : nat) res,
         (requests options ip (t0 :: times) records).1 !! k = Some res ->
         maxRequests options <= Z.of_nat k ->
         allowed res = false /\ remaining res = 0).
Proof.
  intros Hfresh Hwin.
  assert (Hrun : (requests options ip (t0 :: times) records).1
                 = expected options (t0 + windowMs options) 0
                     (Datatypes.S (length times))).
  { apply needsReset_cases in Hfresh.
    cbn [requests]. unfold checkThenIncrement.
    rewrite (check_reset options ip t0 records Hfresh).
    set (fresh := freshRecord options t0).
    set (recs1 := <[ip := fresh]> records).
    assert (Hl : recs1 !! ip = Some fresh) by apply lookup_insert_eq.
    assert (Hw : Forall (fun t => t <= resetTime fresh) times).
    { eapply Forall_impl; [exact Hwin|]. simpl. intros t Ht. lia. }
    cbn [expected]. unfold resultOf at 1. cbn [allowed count fresh freshRecord].
    destruct (0 <? maxRequests options) eqn:Hlt.
    - pose proof (requests_in_window options ip times (increment ip recs1)
                    {| count := count fresh + 1; resetTime := resetTime fresh |} 1
                    (increment_lookup ip recs1 fresh Hl) ltac:(lia)) as Hreq.
      cbn [count resetTime fresh freshRecord] in Hreq.
      apply Z.ltb_lt in Hlt.
      destruct (requests options ip times (increment ip recs1)) as [ress recs'].
      cbn [fst] in *. rewrite Hreq; [| lia | exact Hw].
      f_equal. unfold resultOf. cbn. f_equal. ltb_cases.
    - pose proof (requests_in_window options ip times recs1 fresh 1 Hl ltac:(lia))
        as Hreq.
      cbn [count resetTime fresh freshRecord] in Hreq.
      apply Z.ltb_ge in Hlt.
      destruct (requests options ip times recs1) as [ress recs'].
      cbn [fst] in *. rewrite Hreq; [| lia | exact Hw].
      f_equal. unfold resultOf. cbn. f_equal. ltb_cases. }
  split; [|split; [|split; [|split; [|split]]]].
  - intros now recs H%needsReset_cases.
    rewrite (check_reset options ip now recs H). reflexivity.
  - intros now recs r Hr Hin.
    rewrite (check_in_window options ip now recs r Hr Hin). reflexivity.
  - rewrite Hrun. apply expected_length.
  - intros k res Hk. rewrite Hrun in Hk.
    apply expected_lookup in Hk. subst res. cbn.
    split; [|split; [f_equal; lia | reflexivity]].
    case_bool_decide; ltb_cases.
  - rewrite Hrun. rewrite expected_admitted by lia. f_equal. f_equal. lia.
  - intros k res Hk Hge. rewrite Hrun in Hk.
    apply expected_lookup in Hk. subst res. cbn. split; [ltb_cases | lia].
Qed.

(** The scenario of the specification: [maxRequests = 5], [windowMs = 60000],
    six requests of the address X inside one window. *)
Lemma check_admits_maxRequests_per_window_witness :
  let options := {| maxRequests := 5; windowMs := 60000;
                    skipSuccessfulRequests := false; message := "";
                    skipIps := [] |} in
  let times := [1001; 2000; 3000; 4000; 61000] in
  ((∅ : Records) !! "X" = None
   \/ exists r, (∅ : Records) !! "X" = Some r /\ resetTime r < 1000)
  /\ Forall (fun t => 1000 <= t <= 1000 + windowMs options) times
  /\ length (filter (fun res => allowed res = true)
                    (requests options "X" (1000 :: times) ∅).1) = 5%nat
  /\ (forall res,
        (requests options "X" (1000 :: times) ∅).1 !! 5%nat = Some res ->
        allowed res = false /\ remaining res = 0).
Proof.
  intros options times.
  assert (H0 : (∅ : Records) !! "X" = None
               \/ exists r, (∅ : Records) !! "X" = Some r /\ resetTime r < 1000)
    by (left; reflexivity).
  assert (Hw : Forall (fun t => 1000 <= t <= 1000 + windowMs options) times)
    by (repeat constructor; simpl; lia).
  split; [exact H0|]. split; [exact Hw|].
  destruct (check_admits_maxRequests_per_window options "X" 1000 times ∅ H0 Hw)
    as (_ & _ & _ & _ & Hadm & Hdeny).
  split.
  - exact Hadm.
  - intros res Hres. apply (Hdeny 5%nat res Hres). simpl. lia.
Defined.

(** C9. Two consecutive [check]s of a key at one clock reading, with no
    [increment] between them, answer the same and the second leaves the records
    as the first left them; the count that [check] leaves behind is the count
    of the record in force (0 after a reset), so [check] consumes no quota,
    whereas [increment] raises the count by one. *)
Theorem check_idempotent
    (options : RateLimitOptions) (ip : string) (now : Z) (records : Records) :
  let first := check options now ip records in
  let second := check options now ip first.2 in
  second.1 = first.1
  /\ second.2 = first.2
  /\ count <$> (first.2 !! ip)
     = Some (match records !! ip with
             | Some r => if resetTime r <? now then 0 else count r
             | None => 0
             end)
  /\ count <$> (increment ip first.2 !! ip)
     = (fun c => c + 1) <$> (count <$> (first.2 !! ip)).
Proof.
  cbn zeta.
  assert (Hinc : forall recs : Records,
             count <$> (increment ip recs !! ip)
             = (fun c => c + 1) <$> (count <$> (recs !! ip))).
  { intros recs. unfold increment. rewrite lookup_alter_eq.
    destruct (recs !! ip); reflexivity. }
  destruct (needsReset now (records !! ip)) eqn:Hreset.
  - rewrite (check_reset options ip now records Hreset). cbn [fst snd].
    set (fresh := freshRecord options now).
    assert (Hl : (<[ip := fresh]> records) !! ip = Some fresh)
      by apply lookup_insert_eq.
    split; [|split; [|split]].
    + destruct (resetTime fresh <? now) eqn:Hagain.
      * rewrite check_reset by (rewrite Hl; exact Hagain). reflexivity.
      * rewrite (check_in_window options ip now _ fresh Hl)
          by (apply Z.ltb_ge in Hagain; lia).
        reflexivity.
    + destruct (resetTime fresh <? now) eqn:Hagain.
      * rewrite check_reset by (rewrite Hl; exact Hagain).
        cbn [snd]. apply insert_insert_eq.
      * rewrite (check_in_window options ip now _ fresh Hl)
          by (apply Z.ltb_ge in Hagain; lia).
        reflexivity.
    + rewrite Hl. cbn. unfold needsReset in Hreset.
      destruct (records !! ip) as [r|]; [rewrite Hreset|]; reflexivity.
    + apply Hinc.
  - unfold needsReset in Hreset.
    destruct (records !! ip) as [r|] eqn:Hr; [|discriminate].
    assert (Hin : ~ (resetTime r < now)) by (apply Z.ltb_ge in Hreset; lia).
    rewrite (check_in_window options ip now records r Hr Hin). cbn [fst snd].
    rewrite (check_in_window options ip now records r Hr Hin). cbn [fst snd].
    split; [reflexivity|]. split; [reflexivity|].
    split; [rewrite Hr, Hreset; reflexivity | apply Hinc].
Qed.

End RateLimiterClaims.

(** ** Token refresh skew and the transaction cookie *)

Section UtilsClaims.

Import Utils.

(** C6. [shouldRefreshToken] answers true exactly when
    [session.expiresAt - now] is below five minutes, that is 300000
    milliseconds, and false otherwise. *)
Theorem shouldRefreshToken_five_minutes (now : Z) (session : SessionData) :
  5 * 60 * 1000 = 300000
  /\ (BFFAuthService.shouldRefreshToken now session = true
      <-> expiresAt session - now < 300000)
  /\ (BFFAuthService.shouldRefreshToken now session = false
      <-> ~ (expiresAt session - now < 300000)).
Proof.
  unfold BFFAuthService.shouldRefreshToken.
  split; [reflexivity|]. split.
  - apply Z.ltb_lt.
  - rewrite Z.ltb_ge. lia.
Qed.

(** A session four minutes from expiry is due for refresh; one exactly five
    minutes from expiry is not. *)
Lemma shouldRefreshToken_five_minutes_witness :
  let session expires :=
    {| sessionId := "s"; userId := "u"; accessToken := None;
       refreshToken := None; idToken := None; expiresAt := expires |} in
  BFFAuthService.shouldRefreshToken 1000000 (session (1000000 + 240000)) = true
  /\ BFFAuthService.shouldRefreshToken 1000000 (session (1000000 + 300000)) = false.
Proof.
  intros session. split.
  - apply (shouldRefreshToken_five_minutes 1000000 (session (1000000 + 240000))).
    simpl. lia.
  - apply (shouldRefreshToken_five_minutes 1000000 (session (1000000 + 300000))).
    simpl. lia.
Defined.

Lemma isValidTimestamp_spec (now timestamp : Z) :
  isValidTimestamp now timestamp = true <-> now - timestamp < 600000.
Proof. unfold isValidTimestamp, maxAge. rewrite Z.ltb_lt. lia. Qed.

(** A cookie whose [timestamp] is not valid is not parsed, whatever else it
    holds. *)
Lemma parseOAuthState_invalid_timestamp (now ts : Z) (parsed : JsValue) :
  getProperty parsed "timestamp" = Some (JsNumber ts) ->
  isValidTimestamp now ts = false ->
  parseOAuthState now (Parsed parsed) = None.
Proof.
  intros Hts Hold. unfold parseOAuthState. rewrite Hts.
  destruct parsed; try reflexivity.
  destruct (getProperty _ "state") as [[]|]; try reflexivity.
  destruct (getProperty _ "codeVerifier") as [[]|]; try reflexivity.
  rewrite Hold, andb_false_r. reflexivity.
Qed.

(** C7. A transaction cookie whose [timestamp] lies more than ten minutes
    (600000 ms) before [now] is rejected: [parseOAuthState] returns null, and
    the callback answers [invalid_request] for every [code] and every [state]
    presented, the one stored in the cookie included. *)
Theorem stale_transaction_cookie_rejected (now ts : Z) (parsed : JsValue) :
  getProperty parsed "timestamp" = Some (JsNumber ts) ->
  10 * 60 * 1000 < now - ts ->
  parseOAuthState now (Parsed parsed) = None
  /\ (forall code state : option string,
        callbackValidation now code state (Some (Parsed parsed))
        = RedirectError "invalid_request")
  /\ (forall code stored,
        getProperty parsed "state" = Some (JsString stored) ->
        callbackValidation now code (Some stored) (Some (Parsed parsed))
        = RedirectError "invalid_request").
Proof.
  intros Hts Hold.
  assert (Hnull : parseOAuthState now (Parsed parsed) = None).
  { apply (parseOAuthState_invalid_timestamp now ts); [exact Hts|].
    destruct (isValidTimestamp now ts) eqn:Hv; [|reflexivity].
    apply isValidTimestamp_spec in Hv. lia. }
  assert (Hcb : forall code state : option string,
             callbackValidation now code state (Some (Parsed parsed))
             = RedirectError "invalid_request").
  { intros [code|] [state|]; try reflexivity.
    unfold callbackValidation. rewrite Hnull.
    destruct (falsy (Some code) || falsy (Some state)); reflexivity. }
  split; [exact Hnull|]. split; [exact Hcb|].
  intros code stored _. apply Hcb.
Qed.

(** A cookie written eleven minutes ago, presented with its own [state]. *)
Lemma stale_transaction_cookie_rejected_witness :
  let cookie :=
    JsObject [("state", JsString "0123456789abcdef0123456789abcdef");
              ("codeVerifier", JsString "verifier");
              ("timestamp", JsNumber 1000000)] in
  let now := 1000000 + 11 * 60 * 1000 in
  getProperty cookie "timestamp" = Some (JsNumber 1000000)
  /\ 10 * 60 * 1000 < now - 1000000
  /\ parseOAuthState now (Parsed cookie) = None
  /\ callbackValidation now (Some "code")
       (Some "0123456789abcdef0123456789abcdef") (Some (Parsed cookie))
     = RedirectError "invalid_request".
Proof.
  intros cookie now.
  assert (H1 : getProperty cookie "timestamp" = Some (JsNumber 1000000))
    by reflexivity.
  assert (H2 : 10 * 60 * 1000 < now - 1000000) by (unfold now; lia).
  split; [exact H1|]. split; [exact H2|].
  destruct (stale_transaction_cookie_rejected now 1000000 cookie H1 H2)
    as (Hnull & Hcb & _).
  split; [exact Hnull | apply Hcb].
Defined.

(** C10. The freshness check is one-sided: a [timestamp] after [now] is valid,
    and a well-formed cookie that carries one is accepted by
    [parseOAuthState]. *)
Theorem future_timestamp_accepted (now ts : Z) (parsed : JsValue)
    (st cv : string) :
  now < ts ->
  getProperty parsed "state" = Some (JsString st) ->
  getProperty parsed "codeVerifier" = Some (JsString cv) ->
  getProperty parsed "timestamp" = Some (JsNumber ts) ->
  (16 <= String.length st)%nat ->
  isValidTimestamp now ts = true
  /\ parseOAuthState now (Parsed parsed)
     = Some {| state := st; codeVerifier := cv; timestamp := ts |}
  /\ (forall code,
        code <> "" -> st <> "" ->
        callbackValidation now (Some code) (Some st) (Some (Parsed parsed))
        = Exchange code cv).
Proof.
  intros Hfuture Hst Hcv Hts Hlen.
  assert (Hvalid : isValidTimestamp now ts = true)
    by (apply isValidTimestamp_spec; lia).
  assert (Hparse : parseOAuthState now (Parsed parsed)
                   = Some {| state := st; codeVerifier := cv; timestamp := ts |}).
  { unfold parseOAuthState. rewrite Hst, Hcv, Hts, Hvalid.
    unfold isValidState.
    replace (16 <=? Z.of_nat (String.length st)) with true
      by (symmetry; apply Z.leb_le; lia).
    destruct parsed; try reflexivity. discriminate Hst. }
  split; [exact Hvalid|]. split; [exact Hparse|].
  intros code Hcode Hstate. unfold callbackValidation, falsy.
  rewrite !bool_decide_eq_false_2 by assumption. cbn [orb].
  rewrite Hparse. cbn [Utils.state codeVerifier].
  rewrite bool_decide_eq_true_2 by reflexivity. reflexivity.
Qed.

(** A cookie stamped a year ahead of the clock passes. *)
Lemma future_timestamp_accepted_witness :
  let st := "0123456789abcdef0123456789abcdef" in
  let now := 1700000000000 in
  let ts := now + 365 * 24 * 60 * 60 * 1000 in
  let cookie :=
    JsObject [("state", JsString st); ("codeVerifier", JsString "verifier");
              ("timestamp", JsNumber ts)] in
  now < ts
  /\ isValidTimestamp now ts = true
  /\ parseOAuthState now (Parsed cookie)
     = Some {| state := st; codeVerifier := "verifier"; timestamp := ts |}.
Proof.
  intros st now ts cookie.
  assert (H : now < ts) by (unfold ts, now; lia).
  split; [exact H|].
  destruct (future_timestamp_accepted now ts cookie st "verifier" H
              eq_refl eq_refl eq_refl ltac:(simpl; lia)) as (Hv & Hp & _).
  split; [exact Hv | exact Hp].
Defined.

End UtilsClaims.

(** ** Session stores *)

(** Running a computation of the monad. *)
Lemma bind_ok {S A B} (c : M S A) (k : A -> M S B) (st st' : S) (a : A) :
  c st = (Ok a, st') -> bind c k st = k a st'.
Proof. intros H. unfold bind. rewrite H. reflexivity. Qed.

Lemma bind_throw {S A B} (c : M S A) (k : A -> M S B) (st st' : S) (e : string) :
  c st = (Throw e, st') -> bind c k st = (Throw e, st').
Proof. intros H. unfold bind. rewrite H. reflexivity. Qed.

Section StoreProperties.

Variable prefix : string.
Variable now : Z.
Variable id : string.

(** *** Relational store *)

Lemma postgres_getSession_expired
    (table : PostgresSessionStore.Table) (row : PostgresSessionStore.Row) :
  table !! id = Some row ->
  PostgresSessionStore.expires_at row <= now ->
  PostgresSessionStore.getSession now id table = (Ok None, table).
Proof.
  intros Hrow Hexp. unfold PostgresSessionStore.getSession, bind, gets.
  rewrite Hrow.
  replace (now <? PostgresSessionStore.expires_at row) with false
    by (symmetry; apply Z.ltb_ge; lia).
  reflexivity.
Qed.

Lemma postgres_getSession_absent (table : PostgresSessionStore.Table) :
  table !! id = None ->
  PostgresSessionStore.getSession now id table = (Ok None, table).
Proof.
  intros Hrow. unfold PostgresSessionStore.getSession, bind, gets.
  rewrite Hrow. reflexivity.
Qed.

Lemma postgres_getSession_live
    (table : PostgresSessionStore.Table) (row : PostgresSessionStore.Row) :
  table !! id = Some row ->
  now < PostgresSessionStore.expires_at row ->
  PostgresSessionStore.getSession now id table
  = (Ok (Some (PostgresSessionStore.fromRow id row)), table).
Proof.
  intros Hrow Hexp. unfold PostgresSessionStore.getSession, bind, gets.
  rewrite Hrow.
  replace (now <? PostgresSessionStore.expires_at row) with true
    by (symmetry; apply Z.ltb_lt; lia).
  reflexivity.
Qed.

Lemma postgres_getSession_some
    (table table' : PostgresSessionStore.Table) (session : SessionData) :
  PostgresSessionStore.getSession now id table = (Ok (Some session), table') ->
  table' = table
  /\ now < expiresAt session
  /\ exists row, table !! id = Some row
                 /\ session = PostgresSessionStore.fromRow id row.
Proof.
  unfold PostgresSessionStore.getSession, bind, gets.
  destruct (table !! id) as [row|] eqn:Hrow; [|discriminate].
  destruct (now <? PostgresSessionStore.expires_at row) eqn:Hlt; [|discriminate].
  cbn. intros H. inversion H; subst. apply Z.ltb_lt in Hlt.
  split; [reflexivity|]. split; [exact Hlt|]. eauto.
Qed.

Lemma postgres_getSession_none
    (table table' : PostgresSessionStore.Table) :
  PostgresSessionStore.getSession now id table = (Ok None, table') ->
  table' = table.
Proof.
  unfold PostgresSessionStore.getSession, bind, gets.
  destruct (table !! id) as [row|]; [|intros H; inversion H; reflexivity].
  destruct (now <? PostgresSessionStore.expires_at row);
    cbn; intros H; inversion H; reflexivity.
Qed.

(** *** Key-value store *)

Lemma redis_deleteSession_run (keys : RedisSessionStore.Keys) :
  exists b, RedisSessionStore.deleteSession prefix now id keys
            = (Ok b, delete (RedisSessionStore.getKey prefix id) keys).
Proof.
  unfold RedisSessionStore.deleteSession, RedisSessionStore.del,
    bind, gets, modify, ret.
  eexists. reflexivity.
Qed.

(** What [getSession] of the key-value store does, by what the server serves
    for the key. *)
Lemma redis_getSession_run (keys : RedisSessionStore.Keys) :
  RedisSessionStore.getSession prefix now id keys
  = match RedisSessionStore.live now keys (RedisSessionStore.getKey prefix id) with
    | None => (Ok None, keys)
    | Some (RedisSessionStore.Json session) =>
        if expiresAt session <? now
        then (Ok None, delete (RedisSessionStore.getKey prefix id) keys)
        else (Ok (Some session), keys)
    | Some (RedisSessionStore.Unparseable raw) =>
        if bool_decide (raw = "")
        then (Ok None, keys)
        else (Ok None, delete (RedisSessionStore.getKey prefix id) keys)
    end.
Proof.
  unfold RedisSessionStore.getSession.
  unfold bind at 1. unfold RedisSessionStore.get, gets.
  destruct (RedisSessionStore.live now keys (RedisSessionStore.getKey prefix id))
    as [[session|raw]|]; cbn [RedisSessionStore.noData].
  - destruct (expiresAt session <? now); [|reflexivity].
    destruct (redis_deleteSession_run keys) as [b Hb].
    rewrite (bind_ok _ _ _ _ _ Hb). reflexivity.
  - destruct (bool_decide (raw = "")); [reflexivity|].
    destruct (redis_deleteSession_run keys) as [b Hb].
    rewrite (bind_ok _ _ _ _ _ Hb). reflexivity.
  - reflexivity.
Qed.

Lemma redis_getSession_some
    (keys keys' : RedisSessionStore.Keys) (session : SessionData) :
  RedisSessionStore.getSession prefix now id keys = (Ok (Some session), keys') ->
  keys' = keys
  /\ ~ (expiresAt session < now)
  /\ RedisSessionStore.live now keys (RedisSessionStore.getKey prefix id)
     = Some (RedisSessionStore.Json session).
Proof.
  rewrite redis_getSession_run.
  destruct (RedisSessionStore.live now keys (RedisSessionStore.getKey prefix id))
    as [[s|raw]|]; [| |discriminate].
  - destruct (expiresAt s <? now) eqn:Hlt; [discriminate|].
    intros H. inversion H; subst. apply Z.ltb_ge in Hlt.
    split; [reflexivity|]. split; [lia | reflexivity].
  - destruct (bool_decide (raw = "")); discriminate.
Qed.

Lemma redis_getSession_none (keys keys' : RedisSessionStore.Keys) :
  RedisSessionStore.getSession prefix now id keys = (Ok None, keys') ->
  keys' = keys \/ keys' = delete (RedisSessionStore.getKey prefix id) keys.
Proof.
  rewrite redis_getSession_run.
  destruct (RedisSessionStore.live now keys (RedisSessionStore.getKey prefix id))
    as [[s|raw]|].
  - destruct (expiresAt s <? now); intros H; inversion H; auto.
  - destruct (bool_decide (raw = "")); intros H; inversion H; auto.
  - intros H; inversion H; auto.
Qed.

End StoreProperties.

Section StoreClaims.

(** C1 (as the stores have it). For the relational store, [getSession] of a
    stored row whose [expires_at] is not after [now] returns null and leaves
    the row in the table; for the key-value store, [getSession] of a served
    session whose [expiresAt] is strictly before [now] returns null and deletes
    its key at once.  Consequently neither of the two ever returns a session
    whose [expiresAt] is in the past, with no cleanup call needed, and a
    successful lookup leaves the store as it was. *)
Theorem getSession_expired_is_absent (prefix : string) (now : Z) (id : string) :
  (forall (table : PostgresSessionStore.Table) row,
      table !! id = Some row ->
      PostgresSessionStore.expires_at row <= now ->
      PostgresSessionStore.getSession now id table = (Ok None, table))
  /\ (forall (table table' : PostgresSessionStore.Table) session,
         PostgresSessionStore.getSession now id table = (Ok (Some session), table') ->
         ~ (expiresAt session < now) /\ table' = table)
  /\ (forall (keys : RedisSessionStore.Keys) session,
         RedisSessionStore.live now keys (RedisSessionStore.getKey prefix id)
         = Some (RedisSessionStore.Json session) ->
         expiresAt session < now ->
         RedisSessionStore.getSession prefix now id keys
         = (Ok None, delete (RedisSessionStore.getKey prefix id) keys))
  /\ (forall (keys keys' : RedisSessionStore.Keys) session,
         RedisSessionStore.getSession prefix now id keys = (Ok (Some session), keys') ->
         ~ (expiresAt session < now) /\ keys' = keys).
Proof.
  split; [|split; [|split]].
  - intros table row. apply postgres_getSession_expired.
  - intros table table' session H.
    apply postgres_getSession_some in H as (-> & Hlt & _). split; [lia | reflexivity].
  - intros keys session Hlive Hexp. rewrite redis_getSession_run, Hlive.
    replace (expiresAt session <? now) with true
      by (symmetry; apply Z.ltb_lt; lia).
    reflexivity.
  - intros keys keys' session H.
    apply redis_getSession_some in H as (-> & Hlt & _). split; [exact Hlt | reflexivity].
Qed.

(** A session that expired at 10000, looked up at 20000 in a table and under
    a key whose time to live (60 s, the floor of [createSession]) still runs. *)
Lemma getSession_expired_is_absent_witness :
  let session :=
    {| sessionId := "a"; userId := "u"; accessToken := Some "at";
       refreshToken := Some "rt"; idToken := None; expiresAt := 10000 |} in
  let table : PostgresSessionStore.Table :=
    (PostgresSessionStore.createSession 0 session ∅).2 in
  let keys : RedisSessionStore.Keys :=
    (RedisSessionStore.createSession "session:" 0 session ∅).2 in
  PostgresSessionStore.getSession 20000 "a" table = (Ok None, table)
  /\ RedisSessionStore.getSession "session:" 20000 "a" keys
     = (Ok None, delete "session:a" keys).
Proof.
  intros session table keys.
  destruct (getSession_expired_is_absent "session:" 20000 "a")
    as (Hpg & _ & Hredis & _).
  split.
  - apply (Hpg table (PostgresSessionStore.toRow session)).
    + reflexivity.
    + simpl. lia.
  - apply (Hredis keys session).
    + reflexivity.
    + simpl. lia.
Defined.

(** C1 as stated fails.  In the in-memory store a session that expired at
    10000 is still returned at 20000, and stays stored; in the relational store
    the lookup answers null but the expired row stays in the table. *)
Lemma getSession_expired_counterexample :
  let session :=
    {| sessionId := "a"; userId := "u"; accessToken := Some "at";
       refreshToken := Some "rt"; idToken := None; expiresAt := 10000 |} in
  let sessions : MemorySessionStore.Sessions :=
    (MemorySessionStore.createSession 0 session ∅).2 in
  let table : PostgresSessionStore.Table :=
    (PostgresSessionStore.createSession 0 session ∅).2 in
  expiresAt session < 20000
  /\ MemorySessionStore.getSession 20000 "a" sessions = (Ok (Some session), sessions)
  /\ sessions !! "a" = Some session
  /\ PostgresSessionStore.getSession 20000 "a" table = (Ok None, table)
  /\ table !! "a" = Some (PostgresSessionStore.toRow session).
Proof.
  intros session sessions table.
  split; [simpl; lia|].
  split; [reflexivity|]. split; [reflexivity|].
  split; reflexivity.
Qed.

(** C8 (as the stores have it). When the store's [getSession] finds no
    session under [id], [updateSession] returns false and creates no record:
    the in-memory and the relational store are left unchanged, and the
    key-value store is left as the [getSession] it runs leaves it, that is
    unchanged or with the expired or unparseable value under [id] deleted
    (unchanged when the server serves no value for the key).  When [getSession]
    finds a session, [updateSession] returns true and writes the session with
    the given fields spread over it: under [id] in the in-memory store, under
    the [sessionId] of the result in the other two. *)
Theorem updateSession_never_creates
    (prefix : string) (now : Z) (id : string) (updates : SessionUpdates) :
  (forall sessions : MemorySessionStore.Sessions,
      sessions !! id = None ->
      MemorySessionStore.updateSession now id updates sessions = (Ok false, sessions))
  /\ (forall (sessions : MemorySessionStore.Sessions) session,
         sessions !! id = Some session ->
         MemorySessionStore.updateSession now id updates sessions
         = (Ok true, <[id := spread session updates]> sessions))
  /\ (forall table table' : PostgresSessionStore.Table,
         PostgresSessionStore.getSession now id table = (Ok None, table') ->
         PostgresSessionStore.updateSession now id updates table = (Ok false, table))
  /\ (forall (table table' : PostgresSessionStore.Table) session,
         PostgresSessionStore.getSession now id table = (Ok (Some session), table') ->
         PostgresSessionStore.updateSession now id updates table
         = (Ok true,
            <[sessionId (spread session updates)
              := PostgresSessionStore.toRow (spread session updates)]> table))
  /\ (forall keys keys' : RedisSessionStore.Keys,
         RedisSessionStore.getSession prefix now id keys = (Ok None, keys') ->
         RedisSessionStore.updateSession prefix now id updates keys = (Ok false, keys')
         /\ (keys' = keys
             \/ keys' = delete (RedisSessionStore.getKey prefix id) keys))
  /\ (forall keys : RedisSessionStore.Keys,
         RedisSessionStore.live now keys (RedisSessionStore.getKey prefix id) = None ->
         RedisSessionStore.updateSession prefix now id updates keys = (Ok false, keys))
  /\ (forall (keys keys' : RedisSessionStore.Keys) session,
         RedisSessionStore.getSession prefix now id keys = (Ok (Some session), keys') ->
         RedisSessionStore.updateSession prefix now id updates keys
         = (Ok true,
            <[RedisSessionStore.getKey prefix (sessionId (spread session updates))
              := {| RedisSessionStore.payload :=
                      RedisSessionStore.Json (spread session updates);
                    RedisSessionStore.expiry :=
                      now + Z.max ((expiresAt (spread session updates) - now) / 1000) 60
                            * 1000 |}]> keys)).
Proof.
  repeat apply conj.
  - intros sessions Hnone.
    unfold MemorySessionStore.updateSession, bind, gets. rewrite Hnone. reflexivity.
  - intros sessions session Hsome.
    unfold MemorySessionStore.updateSession, bind, gets. rewrite Hsome. reflexivity.
  - intros table table' Hget.
    pose proof (postgres_getSession_none _ _ _ _ Hget) as ->.
    unfold PostgresSessionStore.updateSession.
    rewrite (bind_ok _ _ _ _ _ Hget). reflexivity.
  - intros table table' session Hget.
    pose proof (postgres_getSession_some _ _ _ _ _ Hget) as (-> & _ & _).
    unfold PostgresSessionStore.updateSession.
    rewrite (bind_ok _ _ _ _ _ Hget). reflexivity.
  - intros keys keys' Hget. split.
    + unfold RedisSessionStore.updateSession.
      rewrite (bind_ok _ _ _ _ _ Hget). reflexivity.
    + apply (redis_getSession_none _ _ _ _ _ Hget).
  - intros keys Hlive.
    unfold RedisSessionStore.updateSession.
    assert (Hget : RedisSessionStore.getSession prefix now id keys = (Ok None, keys))
      by (rewrite redis_getSession_run, Hlive; reflexivity).
    rewrite (bind_ok _ _ _ _ _ Hget). reflexivity.
  - intros keys keys' session Hget.
    pose proof (redis_getSession_some _ _ _ _ _ _ Hget) as (-> & _ & _).
    unfold RedisSessionStore.updateSession.
    rewrite (bind_ok _ _ _ _ _ Hget). reflexivity.
Qed.

(** An update of an id that was never stored, and of a stored live session,
    in each of the three stores. *)
Lemma updateSession_never_creates_witness :
  let session :=
    {| sessionId := "a"; userId := "u"; accessToken := Some "old";
       refreshToken := Some "rt"; idToken := None; expiresAt := 900000 |} in
  let updates :=
    {| newSessionId := None; newUserId := None;
       newAccessToken := Some (Some "new"); newRefreshToken := None;
       newIdToken := None; newExpiresAt := Some 4500000 |} in
  let merged :=
    {| sessionId := "a"; userId := "u"; accessToken := Some "new";
       refreshToken := Some "rt"; idToken := None; expiresAt := 4500000 |} in
  MemorySessionStore.updateSession 1000 "a" updates ∅ = (Ok false, ∅)
  /\ PostgresSessionStore.updateSession 1000 "a" updates ∅ = (Ok false, ∅)
  /\ RedisSessionStore.updateSession "session:" 1000 "a" updates ∅ = (Ok false, ∅)
  /\ MemorySessionStore.updateSession 1000 "a" updates {[ "a" := session ]}
     = (Ok true, {[ "a" := merged ]})
  /\ PostgresSessionStore.updateSession 1000 "a" updates
       {[ "a" := PostgresSessionStore.toRow session ]}
     = (Ok true, {[ "a" := PostgresSessionStore.toRow merged ]})
  /\ RedisSessionStore.updateSession "session:" 1000 "a" updates
       (RedisSessionStore.createSession "session:" 0 session ∅).2
     = (Ok true, (RedisSessionStore.createSession "session:" 1000 merged ∅).2).
Proof.
  intros session updates merged.
  destruct (updateSession_never_creates "session:" 1000 "a" updates)
    as (Hm0 & Hm1 & Hp0 & Hp1 & _ & Hr0 & Hr1).
  split; [apply Hm0; reflexivity|].
  split; [apply (Hp0 ∅ ∅); reflexivity|].
  split; [apply Hr0; reflexivity|].
  split; [etrans; [apply (Hm1 _ session); reflexivity | reflexivity]|].
  split.
  - etrans; [apply (Hp1 _ {[ "a" := PostgresSessionStore.toRow session ]} session);
             reflexivity | reflexivity].
  - etrans; [apply (Hr1 _ (RedisSessionStore.createSession "session:" 0 session ∅).2
                      session); reflexivity | reflexivity].
Defined.

(** C8 as stated fails in the key-value store.  A session stored at 0 that
    expires at 10000 keeps its key for 60 s; at 20000 [getSession] finds no
    session, [updateSession] returns false, and the store is not left
    unchanged: the key is gone. *)
Lemma updateSession_unchanged_counterexample :
  let session :=
    {| sessionId := "a"; userId := "u"; accessToken := Some "old";
       refreshToken := Some "rt"; idToken := None; expiresAt := 10000 |} in
  let keys : RedisSessionStore.Keys :=
    (RedisSessionStore.createSession "session:" 0 session ∅).2 in
  let after :=
    (RedisSessionStore.updateSession "session:" 20000 "a" noUpdates keys).2 in
  (RedisSessionStore.getSession "session:" 20000 "a" keys).1 = Ok None
  /\ (RedisSessionStore.updateSession "session:" 20000 "a" noUpdates keys).1 = Ok false
  /\ keys !! "session:a" <> None
  /\ after !! "session:a" = None
  /\ after <> keys.
Proof.
  intros session keys after.
  split; [reflexivity|]. split; [reflexivity|].
  split; [discriminate|]. split; [reflexivity|].
  intros Heq.
  assert (H : after !! "session:a" = keys !! "session:a") by (rewrite Heq; reflexivity).
  discriminate H.
Qed.

End StoreClaims.

(** ** Session middleware *)

Section MiddlewareClaims.

Import Middleware.

Context {S : Type} (authService : BFFAuthService.t S).

Variable now : Z.
Variable event : Event.
Variable sid : string.

Hypothesis Hcookie : cookies event !! "session_id" = Some sid.
Hypothesis Hsid : sid <> "".

Lemma truthy_sid : truthy (Some sid) = true.
Proof. unfold truthy. rewrite bool_decide_eq_false_2 by exact Hsid. reflexivity. Qed.

(** The middleware up to the decision taken on a session that was found and
    has not expired. *)
Lemma authMiddleware_found (session : SessionData) (st st1 : S) :
  BFFAuthService.getSession authService now sid st = (Ok (Some session), st1) ->
  ~ (expiresAt session < now) ->
  authMiddleware authService now event st
  = match BFFAuthService.shouldRefreshToken now session
          && truthy (refreshToken session), refreshToken session with
    | true, Some token =>
        tryCatch
          (let! newTokens := BFFAuthService.refreshToken authService token in
           let! updated :=
             BFFAuthService.updateSession authService now sid
               {| newSessionId := None;
                  newUserId := None;
                  newAccessToken :=
                    Some (Some (BFFAuthService.access_token newTokens));
                  newRefreshToken :=
                    Some (orElse (BFFAuthService.refresh_token newTokens)
                                 (refreshToken session));
                  newIdToken := None;
                  newExpiresAt :=
                    Some (now + BFFAuthService.expires_in newTokens * 1000) |} in
           if negb updated then ret (clearSession event)
           else
             let! updatedSession :=
               BFFAuthService.getSession authService now sid in
             match updatedSession with
             | Some updatedSession => ret (authenticated event updatedSession)
             | None => ret event
             end)
          (fun error => ret (clearSession event)) st1
    | _, _ => (Ok (authenticated event session), st1)
    end.
Proof.
  intros Hget Hlive. unfold authMiddleware.
  rewrite Hcookie, truthy_sid. cbn [negb].
  rewrite (bind_ok _ _ _ _ _ Hget).
  replace (expiresAt session <? now) with false
    by (symmetry; apply Z.ltb_ge; lia).
  destruct (BFFAuthService.shouldRefreshToken now session
            && truthy (refreshToken session));
    destruct (refreshToken session); reflexivity.
Qed.

(** C2 (as the middleware has it). When the session is found and has not
    expired, a refresh is due and the session has no refresh token, the
    middleware behaves as for a session that needs no refresh: the cookies are
    left as they are and the session's [userId], [sessionId] and access token
    are put into the locals. *)
Theorem refresh_due_without_refresh_token (session : SessionData) (st st1 : S) :
  BFFAuthService.getSession authService now sid st = (Ok (Some session), st1) ->
  ~ (expiresAt session < now) ->
  BFFAuthService.shouldRefreshToken now session = true ->
  truthy (refreshToken session) = false ->
  authMiddleware authService now event st
  = (Ok {| cookies := cookies event;
           locals := {| user := Some {| user_userId := userId session;
                                        user_sessionId := sessionId session |};
                        localsAccessToken := accessToken session |} |}, st1).
Proof.
  intros Hget Hlive Hdue Hnone.
  rewrite (authMiddleware_found session st st1 Hget Hlive).
  rewrite Hdue, Hnone. reflexivity.
Qed.

(** [try]/[catch] around a body that throws runs the handler. *)
Lemma tryCatch_throw {A} (body : M S A) (handler : string -> M S A)
    (st st' : S) (e : string) :
  body st = (Throw e, st') -> tryCatch body handler st = handler e st'.
Proof. intros H. unfold tryCatch. rewrite H. reflexivity. Qed.

Lemma tryCatch_ok {A} (body : M S A) (handler : string -> M S A)
    (st st' : S) (a : A) :
  body st = (Ok a, st') -> tryCatch body handler st = (Ok a, st').
Proof. intros H. unfold tryCatch. rewrite H. reflexivity. Qed.

(** A handler that returns makes the whole [try] return. *)
Lemma tryCatch_returns {A} (body : M S A) (a : A) (st : S) :
  exists a' st', tryCatch body (fun _ => ret a) st = (Ok a', st').
Proof.
  unfold tryCatch. destruct (body st) as [[a'|e] st']; eauto.
Qed.

(** C3 (as the middleware has it). Once the initial lookup has answered, no
    error leaves the middleware.  In particular, on the refresh path, a
    failure of [updateSession], or of the [getSession] that re-reads the
    session after a successful update, ends in the unauthenticated outcome
    with the session cookie cleared. *)
Theorem store_failure_after_lookup_degrades
    (found : option SessionData) (st st1 : S) :
  BFFAuthService.getSession authService now sid st = (Ok found, st1) ->
  (exists event' st', authMiddleware authService now event st = (Ok event', st'))
  /\ (forall session token ok status statusText newTokens,
         found = Some session ->
         ~ (expiresAt session < now) ->
         BFFAuthService.shouldRefreshToken now session = true ->
         refreshToken session = Some token ->
         token <> "" ->
         BFFAuthService.tokenEndpoint authService token
         = BFFAuthService.Response ok status statusText newTokens ->
         ok = true ->
         let updates :=
           {| newSessionId := None;
              newUserId := None;
              newAccessToken := Some (Some (BFFAuthService.access_token newTokens));
              newRefreshToken :=
                Some (orElse (BFFAuthService.refresh_token newTokens) (Some token));
              newIdToken := None;
              newExpiresAt :=
                Some (now + BFFAuthService.expires_in newTokens * 1000) |} in
         (forall e st2,
             BFFAuthService.updateSession authService now sid updates st1
             = (Throw e, st2) ->
             authMiddleware authService now event st = (Ok (clearSession event), st2))
         /\ (forall e st2 st3,
                BFFAuthService.updateSession authService now sid updates st1
                = (Ok true, st2) ->
                BFFAuthService.getSession authService now sid st2 = (Throw e, st3) ->
                authMiddleware authService now event st
                = (Ok (clearSession event), st3))).
Proof.
  intros Hget. split.
  - destruct found as [session|].
    + destruct (Z.ltb_spec (expiresAt session) now) as [Hexp|Hlive].
      * unfold authMiddleware. rewrite Hcookie, truthy_sid. cbn [negb].
        rewrite (bind_ok _ _ _ _ _ Hget).
        replace (expiresAt session <? now) with true
          by (symmetry; apply Z.ltb_lt; lia).
        unfold ret. eauto.
      * rewrite (authMiddleware_found session st st1 Hget) by lia.
        destruct (BFFAuthService.shouldRefreshToken now session
                  && truthy (refreshToken session));
          destruct (refreshToken session); eauto using tryCatch_returns.
    + unfold authMiddleware. rewrite Hcookie, truthy_sid. cbn [negb].
      rewrite (bind_ok _ _ _ _ _ Hget). unfold ret. eauto.
  - intros session token ok status statusText newTokens
      -> Hlive Hdue Htoken Hne Hresp -> updates. subst updates.
    rewrite (authMiddleware_found session st st1 Hget Hlive).
    assert (Htruthy : truthy (Some token) = true).
    { unfold truthy. rewrite bool_decide_eq_false_2 by exact Hne. reflexivity. }
    rewrite Hdue, Htoken, Htruthy. cbn [andb].
    assert (Hrefresh : BFFAuthService.refreshToken authService token st1
                       = (Ok newTokens, st1)).
    { unfold BFFAuthService.refreshToken. rewrite Hresp. reflexivity. }
    split.
    + intros e st2 Hupd.
      erewrite tryCatch_throw; [reflexivity|].
      rewrite (bind_ok _ _ _ _ _ Hrefresh).
      apply bind_throw. exact Hupd.
    + intros e st2 st3 Hupd Hreread.
      erewrite tryCatch_throw; [reflexivity|].
      rewrite (bind_ok _ _ _ _ _ Hrefresh).
      rewrite (bind_ok _ _ _ _ _ Hupd). cbn [negb].
      apply bind_throw. exact Hreread.
Qed.

End MiddlewareClaims.

Section MiddlewareExamples.

Import Middleware Scenario.

(** The in-memory store holding a session without refresh token. *)
Lemma refresh_due_without_refresh_token_witness :
  let st : MemorySessionStore.Sessions := {[ "a" := session None ]} in
  BFFAuthService.shouldRefreshToken 1000000 (session None) = true
  /\ truthy (refreshToken (session None)) = false
  /\ authMiddleware memoryService 1000000 event st
     = (Ok {| cookies := {[ "session_id" := "a" ]};
              locals := {| user := Some {| user_userId := "u";
                                           user_sessionId := "a" |};
                           localsAccessToken := Some "at" |} |}, st).
Proof.
  intros st. split; [reflexivity|]. split; [reflexivity|].
  apply (refresh_due_without_refresh_token memoryService 1000000 event "a"
           eq_refl ltac:(discriminate) (session None) st st).
  - reflexivity.
  - simpl. lia.
  - reflexivity.
  - reflexivity.
Defined.

(** C2 as stated fails.  The session is found, has not expired, is due for
    refresh and has no refresh token; the middleware does not clear the cookie
    and does not proceed unauthenticated: the cookie is kept and the identity
    of the session is in the locals. *)
Lemma refresh_due_without_refresh_token_counterexample :
  let st : MemorySessionStore.Sessions := {[ "a" := session None ]} in
  let outcome := authMiddleware memoryService 1000000 event st in
  BFFAuthService.getSession memoryService 1000000 "a" st = (Ok (Some (session None)), st)
  /\ ~ (expiresAt (session None) < 1000000)
  /\ BFFAuthService.shouldRefreshToken 1000000 (session None) = true
  /\ refreshToken (session None) = None
  /\ outcome.1 <> Ok (clearSession event)
  /\ exists event',
       outcome.1 = Ok event'
       /\ cookies event' !! "session_id" = Some "a"
       /\ user (locals event') = Some {| user_userId := "u"; user_sessionId := "a" |}
       /\ localsAccessToken (locals event') = Some "at".
Proof.
  intros st outcome.
  split; [reflexivity|]. split; [simpl; lia|].
  split; [reflexivity|]. split; [reflexivity|].
  split.
  - intros H. vm_compute in H. discriminate H.
  - eexists. split; [reflexivity|]. repeat split.
Qed.

(** A store that answers the lookup and then stops answering (the update
    fails), and one that stops answering after the update (the re-read
    fails). *)
Lemma store_failure_after_lookup_degrades_witness :
  let sessions := stored (session (Some "rt")) in
  let updated :=
    stored {| sessionId := "a"; userId := "u"; accessToken := Some "at2";
              refreshToken := Some "rt"; idToken := None;
              expiresAt := 1000000 + 3600 * 1000 |} in
  authMiddleware outageService 1000000 event (sessions, 1%nat)
  = (Ok (clearSession event), (sessions, 0%nat))
  /\ authMiddleware outageService 1000000 event (sessions, 2%nat)
     = (Ok (clearSession event), (updated, 0%nat)).
Proof.
  intros sessions updated. split.
  - destruct (store_failure_after_lookup_degrades outageService 1000000 event "a"
                eq_refl ltac:(discriminate) (Some (session (Some "rt")))
                (sessions, 1%nat) (sessions, 0%nat) eq_refl) as [_ H].
    destruct (H (session (Some "rt")) "rt" true 200 "OK" newTokens eq_refl
                ltac:(simpl; lia) eq_refl eq_refl ltac:(discriminate)
                eq_refl eq_refl) as [Hupd _].
    apply (Hupd "ECONNREFUSED"). reflexivity.
  - destruct (store_failure_after_lookup_degrades outageService 1000000 event "a"
                eq_refl ltac:(discriminate) (Some (session (Some "rt")))
                (sessions, 2%nat) (sessions, 1%nat) eq_refl) as [_ H].
    destruct (H (session (Some "rt")) "rt" true 200 "OK" newTokens eq_refl
                ltac:(simpl; lia) eq_refl eq_refl ltac:(discriminate)
                eq_refl eq_refl) as [_ Hreread].
    apply (Hreread "ECONNREFUSED" (updated, 0%nat)); reflexivity.
Defined.

(** C3 as stated fails.  With a store that cannot be reached, the initial
    [getSession] throws and the error leaves the middleware: the request
    carries a session cookie and the outcome is the thrown error, not the
    unauthenticated event. *)
Lemma store_failure_on_lookup_counterexample :
  let sessions := stored (session (Some "rt")) in
  cookies event !! "session_id" = Some "a"
  /\ BFFAuthService.getSession outageService 1000000 "a" (sessions, 0%nat)
     = (Throw "ECONNREFUSED", (sessions, 0%nat))
  /\ authMiddleware outageService 1000000 event (sessions, 0%nat)
     = (Throw "ECONNREFUSED", (sessions, 0%nat)).
Proof.
  intros sessions. split; [reflexivity|]. split; reflexivity.
Qed.

End MiddlewareExamples.

(** ** PKCE *)

Section PKCEProperties.

Import Crypto PKCE.

(** Lists taken three elements at a time, as [base64url] does. *)
Lemma list_ind3 {A} (P : list A -> Prop) :
  P [] ->
  (forall a, P [a]) ->
  (forall a b, P [a; b]) ->
  (forall a b c rest, P rest -> P (a :: b :: c :: rest)) ->
  forall l, P l.
Proof.
  intros H0 H1 H2 H3 l.
  cut (P l /\ (forall a, P (a :: l)) /\ (forall a b, P (a :: b :: l))).
  { intros [H _]. exact H. }
  induction l as [|x l (IH0 & IH1 & IH2)].
  - auto.
  - split; [apply IH1|]. split; [intros a; apply IH2|].
    intros a b. apply H3. exact IH0.
Qed.

(** The encoding has ceil(4n/3) characters. *)
Lemma base64url_length (bytes : list Z) :
  Z.of_nat (String.length (base64url bytes))
  = (4 * Z.of_nat (length bytes) + 2) / 3.
Proof.
  induction bytes as [| a | a b | a b c rest IH] using list_ind3;
    try reflexivity.
  cbn [base64url String.length length].
  rewrite !Nat2Z.inj_succ, IH.
  replace (4 * Z.succ (Z.succ (Z.succ (Z.of_nat (length rest)))) + 2)
    with ((4 * Z.of_nat (length rest) + 2) + 4 * 3) by lia.
  rewrite Z.div_add by lia. lia.
Qed.

Lemma sextet_urlSafe (i : Z) : urlSafeChar (sextet i) = true.
Proof.
  unfold sextet.
  assert (Hall : Forall (fun c => urlSafeChar c = true) alphabet)
    by (vm_compute; repeat constructor).
  destruct (nth_in_or_default (Z.to_nat (Z.land i 63)) alphabet "A"%char)
    as [Hin | ->].
  - rewrite Forall_forall in Hall. apply Hall. apply list_elem_of_In. exact Hin.
  - reflexivity.
Qed.

Lemma base64url_urlSafe (bytes : list Z) : urlSafe (base64url bytes) = true.
Proof.
  induction bytes as [| a | a b | a b c rest IH] using list_ind3;
    cbn [base64url urlSafe]; rewrite ?sextet_urlSafe, ?IH; reflexivity.
Qed.

(** A test that holds on every integer below a bound, checked by running
    it. *)
Lemma forallb_range (n : nat) (P : Z -> bool) :
  forallb P (range n) = true ->
  forall x, 0 <= x < Z.of_nat n -> P x = true.
Proof.
  intros Hall x Hx. rewrite forallb_forall in Hall. apply Hall.
  unfold range. apply in_map_iff. exists (Z.to_nat x).
  split; [lia|]. apply in_seq. lia.
Qed.

Lemma forallb_range2 (n m : nat) (P : Z -> Z -> bool) :
  forallb (fun x => forallb (P x) (range m)) (range n) = true ->
  forall x y, 0 <= x < Z.of_nat n -> 0 <= y < Z.of_nat m -> P x y = true.
Proof.
  intros Hall x y Hx Hy.
  apply (forallb_range m (P x)); [|exact Hy].
  apply (forallb_range n (fun x => forallb (P x) (range m))); assumption.
Qed.

Lemma land_ones_range (x : Z) (k : Z) :
  0 <= k -> 0 <= Z.land x (Z.ones k) < 2 ^ k.
Proof.
  intros Hk. rewrite Z.land_ones by exact Hk. apply Z.mod_pos_bound. lia.
Qed.

Lemma shiftr_byte_range (x : Z) :
  isByte x -> 0 <= Z.shiftr x 6 < 4.
Proof.
  unfold isByte. intros Hx. rewrite Z.shiftr_div_pow2 by lia.
  change (2 ^ 6) with 64. split.
  - apply Z.div_pos; lia.
  - apply Z.div_lt_upper_bound; lia.
Qed.

(** Every 6-bit group is read back from its character. *)
Lemma sextetValue_sextet (i : Z) : sextetValue (sextet i) = Some (Z.land i 63).
Proof.
  unfold sextet.
  pose proof (land_ones_range i 6 ltac:(lia)) as Hrange.
  change (Z.ones 6) with 63 in Hrange. change (2 ^ 6) with 64 in Hrange.
  pose proof (forallb_range 64
    (fun x => match sextetValue (nth (Z.to_nat x) alphabet "A"%char) with
              | Some v => v =? x
              | None => false
              end) ltac:(vm_compute; reflexivity) (Z.land i 63) Hrange) as H.
  cbv beta in H.
  destruct (sextetValue (nth (Z.to_nat (Z.land i 63)) alphabet "A"%char));
    [|discriminate].
  apply Z.eqb_eq in H. subst. reflexivity.
Qed.

(** The bytes of a group of three are read back from its four 6-bit
    groups, and likewise for the shorter groups at the end. *)
Lemma firstByte_spec (a b : Z) :
  isByte a -> isByte b ->
  firstByte (Z.land (Z.shiftr a 2) 63)
            (Z.land (Z.lor (Z.shiftl (Z.land a 3) 4) (Z.shiftr b 4)) 63) = a.
Proof.
  intros Ha Hb. apply Z.eqb_eq.
  apply (forallb_range2 256 256
           (fun a b =>
              firstByte (Z.land (Z.shiftr a 2) 63)
                (Z.land (Z.lor (Z.shiftl (Z.land a 3) 4) (Z.shiftr b 4)) 63)
              =? a)); [vm_compute; reflexivity | exact Ha | exact Hb].
Qed.

Lemma firstByte_last (a : Z) :
  isByte a ->
  firstByte (Z.land (Z.shiftr a 2) 63) (Z.land (Z.shiftl (Z.land a 3) 4) 63) = a.
Proof.
  intros Ha. apply Z.eqb_eq.
  apply (forallb_range 256
           (fun a =>
              firstByte (Z.land (Z.shiftr a 2) 63)
                (Z.land (Z.shiftl (Z.land a 3) 4) 63) =? a));
    [vm_compute; reflexivity | exact Ha].
Qed.

Lemma secondByte_spec (a b c : Z) :
  isByte a -> isByte b -> isByte c ->
  secondByte (Z.land (Z.lor (Z.shiftl (Z.land a 3) 4) (Z.shiftr b 4)) 63)
             (Z.land (Z.lor (Z.shiftl (Z.land b 15) 2) (Z.shiftr c 6)) 63) = b.
Proof.
  intros Ha Hb Hc.
  pose proof (land_ones_range a 2 ltac:(lia)) as Hx.
  change (Z.ones 2) with 3 in Hx. change (2 ^ 2) with 4 in Hx.
  pose proof (shiftr_byte_range c Hc) as Hy.
  generalize dependent (Z.shiftr c 6). intros y Hy.
  generalize dependent (Z.land a 3). intros x Hx.
  apply Z.eqb_eq.
  apply (forallb_range2 4 4
           (fun x y =>
              secondByte (Z.land (Z.lor (Z.shiftl x 4) (Z.shiftr b 4)) 63)
                (Z.land (Z.lor (Z.shiftl (Z.land b 15) 2) y) 63) =? b));
    [| exact Hx | exact Hy].
  apply forallb_forall. intros x' Hx'. apply forallb_forall. intros y' Hy'.
  revert b Hb.
  apply (forallb_range 256
           (fun b =>
              secondByte (Z.land (Z.lor (Z.shiftl x' 4) (Z.shiftr b 4)) 63)
                (Z.land (Z.lor (Z.shiftl (Z.land b 15) 2) y') 63) =? b)).
  revert y' Hy'. apply forallb_forall.
  revert x' Hx'. apply forallb_forall.
  vm_compute. reflexivity.
Qed.

Lemma secondByte_last (a b : Z) :
  isByte a -> isByte b ->
  secondByte (Z.land (Z.lor (Z.shiftl (Z.land a 3) 4) (Z.shiftr b 4)) 63)
             (Z.land (Z.shiftl (Z.land b 15) 2) 63) = b.
Proof.
  intros Ha Hb. apply Z.eqb_eq.
  apply (forallb_range2 256 256
           (fun a b =>
              secondByte (Z.land (Z.lor (Z.shiftl (Z.land a 3) 4) (Z.shiftr b 4)) 63)
                (Z.land (Z.shiftl (Z.land b 15) 2) 63) =? b));
    [vm_compute; reflexivity | exact Ha | exact Hb].
Qed.

Lemma thirdByte_spec (b c : Z) :
  isByte b -> isByte c ->
  thirdByte (Z.land (Z.lor (Z.shiftl (Z.land b 15) 2) (Z.shiftr c 6)) 63)
            (Z.land (Z.land c 63) 63) = c.
Proof.
  intros Hb Hc. apply Z.eqb_eq.
  apply (forallb_range2 256 256
           (fun b c =>
              thirdByte (Z.land (Z.lor (Z.shiftl (Z.land b 15) 2) (Z.shiftr c 6)) 63)
                (Z.land (Z.land c 63) 63) =? c));
    [vm_compute; reflexivity | exact Hb | exact Hc].
Qed.

(** Reading back the text of a buffer gives the buffer. *)
Lemma base64urlDecode_base64url (bytes : list Z) :
  Forall isByte bytes -> base64urlDecode (base64url bytes) = Some bytes.
Proof.
  induction bytes as [| a | a b | a b c rest IH] using list_ind3; intros Hall.
  - reflexivity.
  - apply Forall_cons in Hall as [Ha _].
    cbn [base64url base64urlDecode]. rewrite !sextetValue_sextet.
    rewrite firstByte_last by exact Ha. reflexivity.
  - apply Forall_cons in Hall as [Ha Hall].
    apply Forall_cons in Hall as [Hb _].
    cbn [base64url base64urlDecode]. rewrite !sextetValue_sextet.
    rewrite firstByte_spec, secondByte_last by assumption. reflexivity.
  - apply Forall_cons in Hall as [Ha Hall].
    apply Forall_cons in Hall as [Hb Hall].
    apply Forall_cons in Hall as [Hc Hall].
    cbn [base64url base64urlDecode]. rewrite !sextetValue_sextet.
    rewrite (IH Hall).
    rewrite firstByte_spec, secondByte_spec, thirdByte_spec by assumption.
    reflexivity.
Qed.

(** A digest has 32 bytes. *)
Lemma sha256_length (message : list Z) : length (sha256 message) = 32%nat.
Proof. reflexivity. Qed.

(** C5. For the 32 random bytes that [generatePKCE] draws, the pair it
    returns has as [codeVerifier] the base64url text of those bytes, 43
    URL-safe characters from which the 32 bytes are read back, and as
    [codeChallenge] the base64url text of the SHA-256 digest of the verifier;
    recomputing SHA-256 and base64url from the returned verifier gives the
    returned challenge, so the S256 check accepts the pair. *)
Theorem generatePKCE_round_trip (randomBytes : list Z) :
  length randomBytes = 32%nat ->
  Forall isByte randomBytes ->
  (generatePKCE randomBytes).1 = base64url randomBytes
  /\ String.length (generatePKCE randomBytes).1 = 43%nat
  /\ urlSafe (generatePKCE randomBytes).1 = true
  /\ base64urlDecode (generatePKCE randomBytes).1 = Some randomBytes
  /\ (generatePKCE randomBytes).2
     = base64url (sha256 (utf8 (generatePKCE randomBytes).1))
  /\ String.length (generatePKCE randomBytes).2 = 43%nat
  /\ urlSafe (generatePKCE randomBytes).2 = true
  /\ verifyS256 (generatePKCE randomBytes).1 (generatePKCE randomBytes).2 = true.
Proof.
  intros Hlen Hbytes. unfold generatePKCE. cbn [fst snd].
  assert (H43 : forall bytes, length bytes = 32%nat ->
                              String.length (base64url bytes) = 43%nat).
  { intros bytes Hb. pose proof (base64url_length bytes) as H.
    rewrite Hb in H. change ((4 * Z.of_nat 32 + 2) / 3) with 43 in H. lia. }
  repeat apply conj.
  - reflexivity.
  - apply H43, Hlen.
  - apply base64url_urlSafe.
  - apply base64urlDecode_base64url, Hbytes.
  - reflexivity.
  - apply H43, sha256_length.
  - apply base64url_urlSafe.
  - unfold verifyS256. apply bool_decide_eq_true_2. reflexivity.
Qed.

(** The example of RFC 7636, appendix B: its 32 octets give its verifier and
    its challenge. *)
Lemma generatePKCE_round_trip_witness :
  let randomBytes :=
    [116; 24; 223; 180; 151; 153; 224; 37; 79; 250; 96; 125; 216; 173; 187; 186;
     22; 212; 37; 77; 105; 214; 191; 240; 91; 88; 5; 88; 83; 132; 141; 121] in
  length randomBytes = 32%nat
  /\ Forall isByte randomBytes
  /\ generatePKCE randomBytes
     = ("dBjftJeZ4CVP-mB92K27uhbUJU1p1r_wW1gFWFOEjXk",
        "E9Melhoa2OwvFrEMTJguCHaoeK1t8URWbuGJSstw-cM")
  /\ verifyS256 (generatePKCE randomBytes).1 (generatePKCE randomBytes).2 = true.
Proof.
  intros randomBytes.
  assert (Hlen : length randomBytes = 32%nat) by reflexivity.
  assert (Hbytes : Forall isByte randomBytes)
    by (repeat constructor; unfold isByte; lia).
  split; [exact Hlen|]. split; [exact Hbytes|].
  split; [vm_compute; reflexivity|].
  apply (generatePKCE_round_trip randomBytes Hlen Hbytes).
Defined.

End PKCEProperties.

(** ** Further properties of the rate limiter *)

Section RateLimiterExtras.

Import RateLimiter Traffic.

Variable config : RateLimitOptions.

Lemma increment_lookup_eq (ip : string) (records : Records) :
  (increment ip records) !! ip
  = (fun r => {| count := count r + 1; resetTime := resetTime r |})
      <$> (records !! ip).
Proof. unfold increment. apply lookup_alter_eq. Qed.

Lemma rollback_lookup_eq (ip : string) (records : Records) :
  (rollback ip records) !! ip
  = (fun r => if 0 <? count r
              then {| count := count r - 1; resetTime := resetTime r |}
              else r) <$> (records !! ip).
Proof. unfold rollback. apply lookup_alter_eq. Qed.

Lemma check_lookup_ne (ip ip' : string) (now : Z) (records : Records) :
  ip <> ip' -> (check config now ip records).2 !! ip' = records !! ip'.
Proof.
  intros Hne. unfold check.
  destruct (records !! ip) as [r|]; cbn.
  - destruct (resetTime r <? now); cbn; [apply lookup_insert_ne; exact Hne | reflexivity].
  - apply lookup_insert_ne. exact Hne.
Qed.

(** The record of the key after [check]: the one in force. *)
Lemma check_lookup_eq (ip : string) (now : Z) (records : Records) :
  (check config now ip records).2 !! ip
  = Some (match records !! ip with
          | Some r => if resetTime r <? now then freshRecord config now else r
          | None => freshRecord config now
          end).
Proof.
  unfold check.
  destruct (records !! ip) as [r|] eqn:Hr; cbn.
  - destruct (resetTime r <? now); cbn; [apply lookup_insert_eq | exact Hr].
  - apply lookup_insert_eq.
Qed.

Lemma check_result (ip : string) (now : Z) (records : Records) :
  (check config now ip records).1
  = resultOf config
      (match records !! ip with
       | Some r => if resetTime r <? now then freshRecord config now else r
       | None => freshRecord config now
       end).
Proof.
  unfold check.
  destruct (records !! ip) as [r|]; cbn; [destruct (resetTime r <? now)|];
    reflexivity.
Qed.

(** The handler seen through the record of the key: what it answers and what
    it leaves, for a request the limiter applies to. *)
Lemma rateLimitMiddleware_applied
    (routes : option (list string)) (path ip : string) (status now : Z)
    (records : Records) :
  scoped routes path = true ->
  ip ∉ skipIps config ->
  rateLimitMiddleware config routes path ip status now records
  = let res := (check config now ip records).1 in
    let records1 := (check config now ip records).2 in
    if negb (allowed res) then (Rejected 429 (message config), records1)
    else (Served (maxRequests config) (remaining res) (resultResetTime res),
          if skipSuccessfulRequests config && (status <? 400)
          then rollback ip (increment ip records1)
          else increment ip records1).
Proof.
  intros Hscoped Hskip. unfold rateLimitMiddleware.
  fold (scoped routes path). rewrite Hscoped. cbn [negb].
  rewrite bool_decide_eq_false_2 by exact Hskip.
  destruct (check config now ip records) as [res records1]. reflexivity.
Qed.

Lemma rateLimitMiddleware_bypassed
    (routes : option (list string)) (path ip : string) (status now : Z)
    (records : Records) :
  scoped routes path = false \/ ip ∈ skipIps config ->
  rateLimitMiddleware config routes path ip status now records
  = (Bypassed, records).
Proof.
  intros H. unfold rateLimitMiddleware. fold (scoped routes path).
  destruct (scoped routes path); cbn [negb]; [|reflexivity].
  destruct H as [H|H]; [discriminate|].
  rewrite bool_decide_eq_true_2 by exact H. reflexivity.
Qed.

(** Either the limiter does not apply to a request or it does. *)
Lemma applies_or_bypasses (routes : option (list string)) (path ip : string) :
  (scoped routes path = false \/ ip ∈ skipIps config)
  \/ (scoped routes path = true /\ ip ∉ skipIps config).
Proof.
  destruct (scoped routes path); [|auto].
  destruct (decide (ip ∈ skipIps config)); auto.
Qed.

(** X1. A request from one address never changes the record of another
    key, and a request the limiter does not apply to (a path outside the
    configured routes, or an address on the skip list) is passed on with the
    records untouched. *)
Theorem handler_touches_only_its_key
    (routes : option (list string)) (path ip : string) (status now : Z)
    (records : Records) :
  (forall other, other <> ip ->
     (rateLimitMiddleware config routes path ip status now records).2 !! other
     = records !! other)
  /\ (scoped routes path = false \/ ip ∈ skipIps config ->
      rateLimitMiddleware config routes path ip status now records
      = (Bypassed, records)).
Proof.
  split; [|apply rateLimitMiddleware_bypassed].
  intros other Hne.
  destruct (applies_or_bypasses routes path ip) as [Hby|[Hsc Hsk]].
  - rewrite rateLimitMiddleware_bypassed by exact Hby. reflexivity.
  - rewrite rateLimitMiddleware_applied by assumption. cbn zeta.
    pose proof (check_lookup_ne ip other now records ltac:(congruence)) as Hc.
    destruct (negb (allowed (check config now ip records).1)); cbn [snd];
      [exact Hc|].
    destruct (skipSuccessfulRequests config && (status <? 400)).
    + unfold rollback, increment.
      rewrite !lookup_alter_ne by congruence. exact Hc.
    + unfold increment. rewrite lookup_alter_ne by congruence. exact Hc.
Qed.

(** X2. A request of a key that is over the limit inside its window is
    rejected with status 429 and the configured message, and changes nothing:
    the count is not raised and the boundary of the window is not moved. *)
Theorem rejection_changes_nothing
    (routes : option (list string)) (path ip : string) (status now : Z)
    (records : Records) (r : RateLimitRecord) :
  scoped routes path = true ->
  ip ∉ skipIps config ->
  records !! ip = Some r ->
  ~ (resetTime r < now) ->
  maxRequests config <= count r ->
  rateLimitMiddleware config routes path ip status now records
  = (Rejected 429 (message config), records).
Proof.
  intros Hsc Hsk Hr Hwin Hover.
  rewrite rateLimitMiddleware_applied by assumption. cbn zeta.
  rewrite (check_in_window config ip now records r Hr Hwin). cbn [fst snd].
  unfold resultOf. cbn [allowed].
  replace (count r <? maxRequests config) with false
    by (symmetry; apply Z.ltb_ge; lia).
  reflexivity.
Qed.



(** One request keeps every count between 0 and the limit. *)
Lemma bounded_step
    (routes : option (list string)) (a : Arrival) (records : Records) :
  0 <= maxRequests config ->
  countsWithin (maxRequests config) records ->
  countsWithin (maxRequests config)
    (rateLimitMiddleware config routes (pathname a) (from a)
       (responseStatus a) (at_ a) records).2.
Proof.
  intros Hmax Hinv.
  destruct (applies_or_bypasses routes (pathname a) (from a)) as [Hby|[Hsc Hsk]].
  - rewrite rateLimitMiddleware_bypassed by exact Hby. exact Hinv.
  - rewrite rateLimitMiddleware_applied by assumption. cbn zeta.
    set (rf := match records !! from a with
               | Some r => if resetTime r <? at_ a then freshRecord config (at_ a) else r
               | None => freshRecord config (at_ a)
               end).
    assert (Hrf : 0 <= count rf <= maxRequests config).
    { unfold rf. destruct (records !! from a) as [r|] eqn:Hr.
      - destruct (resetTime r <? at_ a); [cbn; lia | apply (Hinv _ _ Hr)].
      - cbn. lia. }
    assert (Hchecked : countsWithin (maxRequests config)
                         (check config (at_ a) (from a) records).2).
    { intros key r Hkey. destruct (decide (key = from a)) as [->|Hne].
      - rewrite check_lookup_eq in Hkey. fold rf in Hkey.
        inversion Hkey; subst. exact Hrf.
      - rewrite check_lookup_ne in Hkey by congruence. apply (Hinv _ _ Hkey). }
    rewrite check_result. fold rf. unfold resultOf. cbn [allowed].
    destruct (Z.ltb_spec (count rf) (maxRequests config)) as [Hlt|Hge];
      cbn [negb fst snd]; [|exact Hchecked].
    intros key r Hkey.
    destruct (decide (key = from a)) as [->|Hne].
    + destruct (skipSuccessfulRequests config && (responseStatus a <? 400)).
      * rewrite rollback_lookup_eq, increment_lookup_eq, check_lookup_eq in Hkey.
        fold rf in Hkey. cbn in Hkey.
        destruct (0 <? count rf + 1); inversion Hkey; subst; cbn; lia.
      * rewrite increment_lookup_eq, check_lookup_eq in Hkey.
        fold rf in Hkey. inversion Hkey; subst. cbn. lia.
    + apply (Hchecked key).
      destruct (skipSuccessfulRequests config && (responseStatus a <? 400));
        unfold rollback, increment in Hkey;
        rewrite !lookup_alter_ne in Hkey by congruence; exact Hkey.
Qed.

(** X4. The counter is bounded: with a limit that is not negative, no run of
    requests, whatever their addresses, paths, times and response statuses,
    takes a count above [maxRequests] or below 0. *)
Theorem counts_stay_within_limit
    (routes : option (list string)) (arrivals : list Arrival) (records : Records) :
  0 <= maxRequests config ->
  countsWithin (maxRequests config) records ->
  countsWithin (maxRequests config) (serve config routes arrivals records).2.
Proof.
  intros Hmax. revert records.
  induction arrivals as [|a rest IH]; intros records Hinv; [exact Hinv|].
  pose proof (bounded_step routes a records Hmax Hinv) as Hinv1.
  cbn [serve].
  destruct (rateLimitMiddleware config routes (pathname a) (from a)
              (responseStatus a) (at_ a) records) as [outcome records1].
  cbn [snd] in Hinv1. specialize (IH records1 Hinv1).
  destruct (serve config routes rest records1) as [outcomes records2].
  exact IH.
Qed.

End RateLimiterExtras.

Section RateLimiterExtras2.

Import RateLimiter Traffic.

Variable options : RateLimitOptions.
Variable ip : string.

(** A run inside the window of a record leaves the boundary of the window
    where it was. *)
Lemma requests_keep_window (times : list Z) :
  forall (records : Records) (r : RateLimitRecord),
    records !! ip = Some r ->
    Forall (fun t => t <= resetTime r) times ->
    exists r', (requests options ip times records).2 !! ip = Some r'
               /\ resetTime r' = resetTime r.
Proof.
  induction times as [|t times IH]; intros records r Hr Hwin.
  - exists r. auto.
  - apply Forall_cons in Hwin as [Ht Hwin].
    cbn [requests]. unfold checkThenIncrement.
    rewrite (check_in_window options ip t records r Hr) by lia.
    destruct (allowed (resultOf options r)).
    + pose proof (increment_lookup ip records r Hr) as Hinc.
      destruct (IH (increment ip records) _ Hinc Hwin) as (r' & Hr' & Hreset).
      destruct (requests options ip times (increment ip records)) as [ress recs'].
      exists r'. auto.
    + destruct (IH records r Hr Hwin) as (r' & Hr' & Hreset).
      destruct (requests options ip times records) as [ress recs'].
      exists r'. auto.
Qed.

(** X5. A denial is temporary. After a window opened at [t0], however many
    requests were made inside it (the quota may be used up), the first [check]
    after the boundary [t0 + windowMs] starts a new window at its own time and
    admits the key with the full quota. *)
Theorem denial_is_temporary
    (t0 later : Z) (times : list Z) (records : Records) :
  0 < maxRequests options ->
  (records !! ip = None \/ exists r, records !! ip = Some r /\ resetTime r < t0) ->
  Forall (fun t => t0 <= t <= t0 + windowMs options) times ->
  t0 + windowMs options < later ->
  (check options later ip (requests options ip (t0 :: times) records).2).1
  = {| allowed := true;
       remaining := maxRequests options - 1;
       resultResetTime := later + windowMs options |}.
Proof.
  intros Hmax Hfresh Hwin Hlater.
  apply needsReset_cases in Hfresh.
  assert (Hfinal : exists r', (requests options ip (t0 :: times) records).2 !! ip
                              = Some r'
                              /\ resetTime r' = t0 + windowMs options).
  { cbn [requests]. unfold checkThenIncrement.
    rewrite (check_reset options ip t0 records Hfresh).
    set (fresh := freshRecord options t0).
    set (recs1 := <[ip := fresh]> records).
    assert (Hl : recs1 !! ip = Some fresh) by apply lookup_insert_eq.
    assert (Hw : Forall (fun t => t <= resetTime fresh) times).
    { eapply Forall_impl; [exact Hwin|]. simpl. intros t Ht. lia. }
    destruct (allowed (resultOf options fresh)).
    - destruct (requests_keep_window times (increment ip recs1) _
                  (increment_lookup ip recs1 fresh Hl) Hw) as (r' & Hr' & Hreset).
      destruct (requests options ip times (increment ip recs1)) as [ress recs'].
      exists r'. auto.
    - destruct (requests_keep_window times recs1 fresh Hl Hw)
        as (r' & Hr' & Hreset).
      destruct (requests options ip times recs1) as [ress recs'].
      exists r'. auto. }
  destruct Hfinal as (r' & Hr' & Hreset).
  rewrite check_reset.
  - cbn [fst]. unfold resultOf, freshRecord. cbn.
    f_equal; [apply Z.ltb_lt; lia | lia].
  - rewrite Hr'. cbn. apply Z.ltb_lt. lia.
Qed.

(** X6. The periodic sweep is invisible to [check]: it keeps exactly the
    records whose window has not elapsed, and a [check] after the sweep answers
    as it would have without it. *)
Theorem cleanup_is_transparent (now : Z) (records : Records) :
  (forall key,
     (check options now key (cleanup now records)).1
     = (check options now key records).1)
  /\ (forall key r,
        cleanup now records !! key = Some r
        <-> records !! key = Some r /\ ~ (resetTime r < now)).
Proof.
  assert (Hfilter : forall key r,
             cleanup now records !! key = Some r
             <-> records !! key = Some r /\ ~ (resetTime r < now)).
  { intros key r. unfold cleanup. rewrite map_lookup_filter_Some. reflexivity. }
  split; [|exact Hfilter].
  intros key. rewrite !check_result. f_equal.
  destruct (records !! key) as [r|] eqn:Hr.
  - destruct (Z.ltb_spec (resetTime r) now) as [Hold|Hin].
    + destruct (cleanup now records !! key) as [r'|] eqn:Hc; [|reflexivity].
      apply Hfilter in Hc as [Hc Hkeep]. rewrite Hr in Hc. inversion Hc; subst.
      lia.
    + assert (Hc : cleanup now records !! key = Some r)
        by (apply Hfilter; split; [exact Hr | lia]).
      rewrite Hc. replace (resetTime r <? now) with false
        by (symmetry; apply Z.ltb_ge; lia).
      reflexivity.
  - destruct (cleanup now records !! key) as [r'|] eqn:Hc; [|reflexivity].
    apply Hfilter in Hc as [Hc _]. rewrite Hr in Hc. discriminate.
Qed.

End RateLimiterExtras2.

(** *** The properties above on the preset of the authentication routes *)

Section RateLimiterExtraWitnesses.

Import RateLimiter Traffic.

Lemma rejection_changes_nothing_witness :
  let records : Records := {[ "10.0.0.1" := {| count := 5; resetTime := 61000 |} ]} in
  rateLimitMiddleware strictAuth (Some ["/auth/login"]) "/auth/login" "10.0.0.1"
    401 30000 records
  = (Rejected 429 "Too many login attempts. Please try again in a minute.", records).
Proof.
  intros records.
  apply (rejection_changes_nothing strictAuth (Some ["/auth/login"]) "/auth/login"
           "10.0.0.1" 401 30000 records {| count := 5; resetTime := 61000 |}).
  - reflexivity.
  - cbn. apply not_elem_of_nil.
  - reflexivity.
  - cbn. lia.
  - cbn. lia.
Defined.


Lemma counts_stay_within_limit_witness :
  let arrival t :=
    {| at_ := t; from := "10.0.0.1"; pathname := "/auth/login";
       responseStatus := 401 |} in
  let arrivals := map arrival [1000; 1001; 1002; 1003; 1004; 1005; 1006; 1007] in
  countsWithin 5 (serve strictAuth (Some ["/auth/login"]) arrivals ∅).2.
Proof.
  intros arrival arrivals.
  apply (counts_stay_within_limit strictAuth (Some ["/auth/login"]) arrivals ∅).
  - cbn. lia.
  - intros key r Hkey. rewrite lookup_empty in Hkey. discriminate.
Defined.

Lemma denial_is_temporary_witness :
  let times := [1001; 1002; 1003; 1004; 1005; 1006] in
  (check strictAuth 61001 "10.0.0.1"
     (requests strictAuth "10.0.0.1" (1000 :: times) ∅).2).1
  = {| allowed := true; remaining := 4; resultResetTime := 121001 |}.
Proof.
  intros times.
  apply (denial_is_temporary strictAuth "10.0.0.1" 1000 61001 times ∅).
  - cbn. lia.
  - left. reflexivity.
  - repeat constructor; cbn; lia.
  - cbn. lia.
Defined.

End RateLimiterExtraWitnesses.

(** ** Further properties of the session stores *)

Section MemoryStoreExtras.

Import MemorySessionStore.


(** X8. The sweep of the in-memory store removes exactly the sessions whose
    [expiresAt] is before [now] and keeps the others as they are, so that right
    after it [getSession] returns no expired session. *)
Theorem memory_cleanup_removes_expired (now : Z) (sessions : Sessions) :
  let swept := (cleanupExpiredSessions now sessions).2 in
  (forall id session,
     swept !! id = Some session
     <-> sessions !! id = Some session /\ ~ (expiresAt session < now))
  /\ (forall id session st,
        getSession now id swept = (Ok (Some session), st) ->
        ~ (expiresAt session < now)).
Proof.
  cbn zeta. unfold cleanupExpiredSessions, modify. cbn [snd].
  assert (Hfilter : forall id session,
             filter (fun kv => ~ (expiresAt kv.2 < now)) sessions !! id = Some session
             <-> sessions !! id = Some session /\ ~ (expiresAt session < now)).
  { intros id session. rewrite map_lookup_filter_Some. reflexivity. }
  split; [exact Hfilter|].
  intros id session st. unfold getSession, gets. intros H.
  inversion H as [[Hlook Hst]]. apply Hfilter in Hlook. tauto.
Qed.

End MemoryStoreExtras.

Section RedisStoreExtras.

Import RedisSessionStore.

Variable prefix : string.

Lemma live_insert_eq (now : Z) (keys : Keys) (key : string) (entry : Entry) :
  live now (<[key := entry]> keys) key
  = if now <? expiry entry then Some (payload entry) else None.
Proof. unfold live. rewrite lookup_insert_eq. reflexivity. Qed.

(** A lookup after [createSession], by the clock reading of the lookup. *)
Lemma redis_get_after_create
    (created later : Z) (session : SessionData) (keys : Keys) :
  getSession prefix later (sessionId session)
    (createSession prefix created session keys).2
  = (if later <? created + Z.max ((expiresAt session - created) / 1000) 60 * 1000
     then if expiresAt session <? later
          then (Ok None,
                delete (getKey prefix (sessionId session))
                  (createSession prefix created session keys).2)
          else (Ok (Some session), (createSession prefix created session keys).2)
     else (Ok None, (createSession prefix created session keys).2)).
Proof.
  rewrite redis_getSession_run.
  unfold createSession, setex, modify. cbn [snd].
  rewrite live_insert_eq. cbn [expiry payload].
  destruct (later <? created + Z.max ((expiresAt session - created) / 1000) 60 * 1000);
    reflexivity.
Qed.

(** X9. How long the key-value store serves a session. A session created at
    [created] gets a time to live of max(floor((expiresAt - created)/1000), 60)
    seconds. [getSession] at [later] returns it exactly when that time has not
    run out and [expiresAt] is not before [later]; when the key is still alive
    but the session has expired the key is deleted. Hence a session is served
    during its first minute as long as it has not expired, and a session
    created with at least a minute to live is served up to one second before
    [expiresAt]. *)
Theorem redis_session_served_until
    (created later : Z) (session : SessionData) (keys : Keys) :
  let key := getKey prefix (sessionId session) in
  let stored := (createSession prefix created session keys).2 in
  let deadline :=
    created + Z.max ((expiresAt session - created) / 1000) 60 * 1000 in
  getSession prefix later (sessionId session) stored
  = (if later <? deadline
     then if expiresAt session <? later
          then (Ok None, delete key stored)
          else (Ok (Some session), stored)
     else (Ok None, stored))
  /\ (later - created < 60000 -> ~ (expiresAt session < later) ->
      getSession prefix later (sessionId session) stored = (Ok (Some session), stored))
  /\ (60000 <= expiresAt session - created -> later + 1000 <= expiresAt session ->
      getSession prefix later (sessionId session) stored = (Ok (Some session), stored)).
Proof.
  cbn zeta.
  set (deadline := created + Z.max ((expiresAt session - created) / 1000) 60 * 1000).
  assert (Hrun : getSession prefix later (sessionId session)
                   (createSession prefix created session keys).2
                 = (if later <? deadline
                    then if expiresAt session <? later
                         then (Ok None,
                               delete (getKey prefix (sessionId session))
                                 (createSession prefix created session keys).2)
                         else (Ok (Some session),
                               (createSession prefix created session keys).2)
                    else (Ok None, (createSession prefix created session keys).2))).
  { apply redis_get_after_create. }
  split; [exact Hrun|]. split.
  - intros Hminute Hlive. rewrite Hrun.
    replace (later <? deadline) with true
      by (symmetry; apply Z.ltb_lt; unfold deadline; lia).
    replace (expiresAt session <? later) with false
      by (symmetry; apply Z.ltb_ge; lia).
    reflexivity.
  - intros Hlong Hbefore. rewrite Hrun.
    assert (Hfloor : expiresAt session - created - 1000
                     < (expiresAt session - created) / 1000 * 1000).
    { pose proof (Z.mod_pos_bound (expiresAt session - created) 1000 ltac:(lia)).
      pose proof (Z.div_mod (expiresAt session - created) 1000 ltac:(lia)).
      lia. }
    replace (later <? deadline) with true
      by (symmetry; apply Z.ltb_lt; unfold deadline; lia).
    replace (expiresAt session <? later) with false
      by (symmetry; apply Z.ltb_ge; lia).
    reflexivity.
Qed.

(** X10. [deleteSession] of the key-value store answers whether the server
    still served a value under the id, and after it [getSession] finds
    nothing under that id at any time. *)
Theorem redis_delete_then_absent (now later : Z) (id : string) (keys : Keys) :
  deleteSession prefix now id keys
  = (Ok (bool_decide (is_Some (live now keys (getKey prefix id)))),
     delete (getKey prefix id) keys)
  /\ getSession prefix later id (deleteSession prefix now id keys).2
     = (Ok None, delete (getKey prefix id) keys).
Proof.
  assert (Hdel : deleteSession prefix now id keys
                 = (Ok (bool_decide (is_Some (live now keys (getKey prefix id)))),
                    delete (getKey prefix id) keys)).
  { unfold deleteSession, del, bind, gets, modify, ret.
    destruct (live now keys (getKey prefix id)) as [v|]; reflexivity. }
  split; [exact Hdel|].
  rewrite Hdel. cbn [snd]. rewrite redis_getSession_run.
  unfold live. rewrite lookup_delete_eq. reflexivity.
Qed.

End RedisStoreExtras.

Lemma redis_session_served_until_witness :
  let session :=
    {| sessionId := "a"; userId := "u"; accessToken := Some "at";
       refreshToken := Some "rt"; idToken := None; expiresAt := 3600500 |} in
  let stored := (RedisSessionStore.createSession "session:" 0 session ∅).2 in
  RedisSessionStore.getSession "session:" 59999 "a" stored = (Ok (Some session), stored)
  /\ RedisSessionStore.getSession "session:" 3599500 "a" stored = (Ok (Some session), stored)
  /\ RedisSessionStore.getSession "session:" 3600000 "a" stored = (Ok None, stored).
Proof.
  intros session stored.
  destruct (redis_session_served_until "session:" 0 59999 session ∅)
    as (_ & Hminute & _).
  destruct (redis_session_served_until "session:" 0 3599500 session ∅)
    as (_ & _ & Hlong).
  destruct (redis_session_served_until "session:" 0 3600000 session ∅)
    as (Hrun & _ & _).
  split; [apply Hminute; cbn; lia|].
  split; [apply Hlong; cbn; lia|].
  exact Hrun.
Defined.

Section PostgresStoreExtras.

Import PostgresSessionStore.

Lemma fromRow_toRow (session : SessionData) :
  fromRow (sessionId session) (toRow session) = session.
Proof. destruct session. reflexivity. Qed.

(** X11. Life cycle of a session in the relational store. After
    [createSession], [getSession] under the session's id returns that very
    session as long as [now] is before [expiresAt], and null from [expiresAt]
    on, the row staying in the table; creating the session again changes
    nothing; [deleteSession] answers whether a row was stored, expired or
    not, and after it [getSession] finds nothing. *)
Theorem postgres_store_life_cycle
    (created later : Z) (session : SessionData) (table : Table) :
  let stored := (createSession created session table).2 in
  getSession later (sessionId session) stored
  = (Ok (if later <? expiresAt session then Some session else None), stored)
  /\ (createSession later session stored).2 = stored
  /\ deleteSession later (sessionId session) stored
     = (Ok true, delete (sessionId session) table)
  /\ (forall id,
        deleteSession later id table
        = (Ok (bool_decide (is_Some (table !! id))), delete id table))
  /\ (forall id,
        getSession later id (deleteSession later id table).2
        = (Ok None, delete id table)).
Proof.
  cbn zeta.
  assert (Hdel : forall id,
             deleteSession later id table
             = (Ok (bool_decide (is_Some (table !! id))), delete id table)).
  { intros id. unfold deleteSession, bind, gets, modify, ret.
    destruct (table !! id) as [row|]; reflexivity. }
  repeat apply conj.
  - unfold createSession, modify. cbn [snd].
    unfold getSession, bind, gets. rewrite lookup_insert_eq. cbn [toRow expires_at].
    destruct (later <? expiresAt session); cbn; [rewrite fromRow_toRow|]; reflexivity.
  - unfold createSession, modify. cbn [snd]. apply insert_insert_eq.
  - unfold createSession, modify. cbn [snd].
    unfold deleteSession, bind, gets, modify, ret.
    rewrite lookup_insert_eq. cbn. rewrite delete_insert_eq. reflexivity.
  - exact Hdel.
  - intros id. rewrite Hdel. cbn [snd].
    apply postgres_getSession_absent. apply lookup_delete_eq.
Qed.

(** X12. The sweep of the relational store deletes exactly the rows whose
    [expires_at] is before [now], and [getSession] cannot tell whether it ran:
    every lookup at [now] answers the same before and after the sweep. *)
Theorem postgres_cleanup_is_transparent (now : Z) (table : Table) :
  let swept := (cleanupExpiredSessions now table).2 in
  (forall id row,
     swept !! id = Some row
     <-> table !! id = Some row /\ ~ (expires_at row < now))
  /\ (forall id, (getSession now id swept).1 = (getSession now id table).1).
Proof.
  cbn zeta. unfold cleanupExpiredSessions, modify. cbn [snd].
  assert (Hfilter : forall id row,
             filter (fun kv => ~ (expires_at kv.2 < now)) table !! id = Some row
             <-> table !! id = Some row /\ ~ (expires_at row < now)).
  { intros id row. rewrite map_lookup_filter_Some. reflexivity. }
  split; [exact Hfilter|].
  intros id. unfold getSession, bind, gets.
  destruct (table !! id) as [row|] eqn:Hrow.
  - destruct (Z.ltb_spec now (expires_at row)) as [Hlive|Hdead].
    + assert (Hkept : filter (fun kv => ~ (expires_at kv.2 < now)) table !! id
                      = Some row) by (apply Hfilter; split; [exact Hrow | lia]).
      rewrite Hkept.
      replace (now <? expires_at row) with true
        by (symmetry; apply Z.ltb_lt; lia).
      reflexivity.
    + destruct (filter (fun kv => ~ (expires_at kv.2 < now)) table !! id)
        as [row'|] eqn:Hswept; [|reflexivity].
      apply Hfilter in Hswept as [Hsame _]. rewrite Hrow in Hsame.
      inversion Hsame; subst.
      replace (now <? expires_at row') with false
        by (symmetry; apply Z.ltb_ge; lia).
      reflexivity.
  - destruct (filter (fun kv => ~ (expires_at kv.2 < now)) table !! id)
      as [row'|] eqn:Hswept; [|reflexivity].
    apply Hfilter in Hswept as [Hsame _]. rewrite Hrow in Hsame. discriminate.
Qed.

End PostgresStoreExtras.

Section UpdateExtras.

Variable prefix : string.



(** X14. An update that replaces [sessionId]. The relational store writes the
    merged session as a row under the new id and leaves the row under the old
    id as it was (the update copies, it does not move); the in-memory store
    keeps the merged session under the old id, where [getSession] returns it
    with the new [sessionId] inside. *)
Theorem update_with_new_sessionId
    (now : Z) (id other : string) (updates : SessionUpdates) (session : SessionData) :
  newSessionId updates = Some other ->
  other <> id ->
  (forall table table' : PostgresSessionStore.Table,
      PostgresSessionStore.getSession now id table = (Ok (Some session), table') ->
      (PostgresSessionStore.updateSession now id updates table).1 = Ok true
      /\ (PostgresSessionStore.updateSession now id updates table).2 !! id
         = table !! id
      /\ (PostgresSessionStore.updateSession now id updates table).2 !! other
         = Some (PostgresSessionStore.toRow (spread session updates)))
  /\ (forall sessions : MemorySessionStore.Sessions,
         sessions !! id = Some session ->
         (MemorySessionStore.updateSession now id updates sessions).2 !! id
         = Some (spread session updates)
         /\ sessionId (spread session updates) = other
         /\ (MemorySessionStore.updateSession now id updates sessions).2 !! other
            = sessions !! other).
Proof.
  intros Hnew Hne.
  assert (Hid : sessionId (spread session updates) = other)
    by (unfold spread; rewrite Hnew; reflexivity).
  split.
  - intros table table' Hget.
    pose proof (postgres_getSession_some _ _ _ _ _ Hget) as (-> & _ & _).
    unfold PostgresSessionStore.updateSession.
    rewrite (bind_ok _ _ _ _ _ Hget).
    unfold bind, PostgresSessionStore.createSession, modify, ret. cbn [fst snd].
    rewrite Hid. split; [reflexivity|]. split.
    + apply lookup_insert_ne. exact Hne.
    + apply lookup_insert_eq.
  - intros sessions Hs.
    unfold MemorySessionStore.updateSession, bind, gets, modify, ret.
    rewrite Hs. cbn [fst snd]. split; [apply lookup_insert_eq|].
    split; [exact Hid|]. apply lookup_insert_ne. congruence.
Qed.

End UpdateExtras.


Lemma update_with_new_sessionId_witness :
  let session :=
    {| sessionId := "a"; userId := "u"; accessToken := Some "at";
       refreshToken := None; idToken := None; expiresAt := 900000 |} in
  let updates :=
    {| newSessionId := Some "b"; newUserId := None; newAccessToken := None;
       newRefreshToken := None; newIdToken := None; newExpiresAt := None |} in
  let table : PostgresSessionStore.Table :=
    {[ "a" := PostgresSessionStore.toRow session ]} in
  (PostgresSessionStore.updateSession 1000 "a" updates table).2 !! "a" = table !! "a"
  /\ (PostgresSessionStore.updateSession 1000 "a" updates table).2 !! "b"
     = Some (PostgresSessionStore.toRow session).
Proof.
  intros session updates table.
  destruct (update_with_new_sessionId 1000 "a" "b" updates session eq_refl
              ltac:(discriminate)) as [Hp _].
  destruct (Hp table table eq_refl) as (_ & Hold & Hnew).
  split; [exact Hold | exact Hnew].
Defined.

(** ** Further properties of the session middleware *)

Section MiddlewareExtras.

Import Middleware.

Context {S : Type} (authService : BFFAuthService.t S).

Variable now : Z.
Variable event : Event.

(** X15. Without a session cookie, or with an empty one, the middleware
    never calls the store: the request goes on with empty locals, its cookies
    untouched, and this holds for every store, reachable or not. *)
Theorem no_cookie_no_lookup (st : S) :
  cookies event !! "session_id" = None \/ cookies event !! "session_id" = Some "" ->
  authMiddleware authService now event st
  = (Ok {| cookies := cookies event;
           locals := {| user := None; localsAccessToken := None |} |}, st).
Proof.
  intros [H|H]; unfold authMiddleware; rewrite H; reflexivity.
Qed.

Variable sid : string.

Hypothesis Hcookie : cookies event !! "session_id" = Some sid.
Hypothesis Hsid : sid <> "".

(** X16. Whatever the store, a session it returns with [expiresAt] before
    [now] is treated like a missing one: the cookie is deleted, the locals are
    emptied, no refresh is tried and the store is left as the lookup left it
    (the middleware does not delete the stored session). *)
Theorem expired_or_missing_session_is_cleared
    (found : option SessionData) (st st1 : S) :
  BFFAuthService.getSession authService now sid st = (Ok found, st1) ->
  (found = None \/ exists session, found = Some session /\ expiresAt session < now) ->
  authMiddleware authService now event st
  = (Ok {| cookies := delete "session_id" (cookies event);
           locals := {| user := None; localsAccessToken := None |} |}, st1).
Proof.
  intros Hget Hfound. unfold authMiddleware.
  rewrite Hcookie, (truthy_sid sid Hsid). cbn [negb].
  rewrite (bind_ok _ _ _ _ _ Hget).
  destruct Hfound as [->|(session & -> & Hexp)]; [reflexivity|].
  replace (expiresAt session <? now) with true
    by (symmetry; apply Z.ltb_lt; lia).
  reflexivity.
Qed.

(** X17. A refresh that the provider refuses. When the session is due for
    refresh and has a refresh token, and the token endpoint cannot be reached
    or answers with a status that is not ok, the cookie is deleted and the
    locals are emptied; [updateSession] is not called and the stored session
    stays in the store. *)
Theorem refused_refresh_clears_cookie
    (session : SessionData) (token : string) (st st1 : S) :
  BFFAuthService.getSession authService now sid st = (Ok (Some session), st1) ->
  ~ (expiresAt session < now) ->
  BFFAuthService.shouldRefreshToken now session = true ->
  refreshToken session = Some token ->
  token <> "" ->
  (exists e, BFFAuthService.tokenEndpoint authService token
             = BFFAuthService.FetchRejected e)
  \/ (exists status statusText json,
         BFFAuthService.tokenEndpoint authService token
         = BFFAuthService.Response false status statusText json) ->
  authMiddleware authService now event st = (Ok (clearSession event), st1).
Proof.
  intros Hget Hlive Hdue Htoken Hne Hrefused.
  rewrite (authMiddleware_found authService now event sid Hcookie Hsid
             session st st1 Hget Hlive).
  assert (Htruthy : truthy (Some token) = true).
  { unfold truthy. rewrite bool_decide_eq_false_2 by exact Hne. reflexivity. }
  rewrite Hdue, Htoken, Htruthy. cbn [andb].
  assert (Hthrow : exists e,
             BFFAuthService.refreshToken authService token st1 = (Throw e, st1)).
  { unfold BFFAuthService.refreshToken.
    destruct Hrefused as [[e ->]|(status & statusText & json & ->)]; eauto. }
  destruct Hthrow as [e Hthrow].
  erewrite tryCatch_throw; [reflexivity|].
  apply bind_throw. exact Hthrow.
Qed.

(** The refresh path when the provider has issued new tokens, the update
    has succeeded and the session is read again. *)
Lemma refresh_path_reread
    (session : SessionData) (token : string) (status : Z) (statusText : string)
    (newTokens : BFFAuthService.TokenResponse) (st st1 : S) :
  BFFAuthService.getSession authService now sid st = (Ok (Some session), st1) ->
  ~ (expiresAt session < now) ->
  BFFAuthService.shouldRefreshToken now session = true ->
  refreshToken session = Some token ->
  token <> "" ->
  BFFAuthService.tokenEndpoint authService token
  = BFFAuthService.Response true status statusText newTokens ->
  forall st2 st3 updated,
    BFFAuthService.updateSession authService now sid
      {| newSessionId := None;
         newUserId := None;
         newAccessToken := Some (Some (BFFAuthService.access_token newTokens));
         newRefreshToken :=
           Some (orElse (BFFAuthService.refresh_token newTokens) (Some token));
         newIdToken := None;
         newExpiresAt := Some (now + BFFAuthService.expires_in newTokens * 1000) |}
      st1 = (Ok true, st2) ->
    BFFAuthService.getSession authService now sid st2 = (Ok (Some updated), st3) ->
    authMiddleware authService now event st
    = (Ok (authenticated event updated), st3).
Proof.
  intros Hget Hlive Hdue Htoken Hne Hresp st2 st3 updated Hupd Hreread.
  rewrite (authMiddleware_found authService now event sid Hcookie Hsid
             session st st1 Hget Hlive).
  assert (Htruthy : truthy (Some token) = true).
  { unfold truthy. rewrite bool_decide_eq_false_2 by exact Hne. reflexivity. }
  rewrite Hdue, Htoken, Htruthy. cbn [andb].
  assert (Hrefresh : BFFAuthService.refreshToken authService token st1
                     = (Ok newTokens, st1)).
  { unfold BFFAuthService.refreshToken. rewrite Hresp. reflexivity. }
  erewrite tryCatch_ok; [reflexivity|].
  rewrite (bind_ok _ _ _ _ _ Hrefresh), (bind_ok _ _ _ _ _ Hupd). cbn [negb].
  rewrite (bind_ok _ _ _ _ _ Hreread). reflexivity.
Qed.

(** X18. A session that vanishes while it is refreshed. When the provider
    has issued new tokens and [updateSession] answers false, the cookie is
    deleted and the locals are emptied; when the update succeeds and the
    re-reading [getSession] finds nothing, the request goes on with the event
    as it came in: cookie kept, locals untouched. *)
Theorem session_vanishing_during_refresh
    (session : SessionData) (token : string) (status : Z) (statusText : string)
    (newTokens : BFFAuthService.TokenResponse) (st st1 : S) :
  BFFAuthService.getSession authService now sid st = (Ok (Some session), st1) ->
  ~ (expiresAt session < now) ->
  BFFAuthService.shouldRefreshToken now session = true ->
  refreshToken session = Some token ->
  token <> "" ->
  BFFAuthService.tokenEndpoint authService token
  = BFFAuthService.Response true status statusText newTokens ->
  let updates :=
    {| newSessionId := None;
       newUserId := None;
       newAccessToken := Some (Some (BFFAuthService.access_token newTokens));
       newRefreshToken :=
         Some (orElse (BFFAuthService.refresh_token newTokens) (Some token));
       newIdToken := None;
       newExpiresAt := Some (now + BFFAuthService.expires_in newTokens * 1000) |} in
  (forall st2,
      BFFAuthService.updateSession authService now sid updates st1 = (Ok false, st2) ->
      authMiddleware authService now event st = (Ok (clearSession event), st2))
  /\ (forall st2 st3,
         BFFAuthService.updateSession authService now sid updates st1 = (Ok true, st2) ->
         BFFAuthService.getSession authService now sid st2 = (Ok None, st3) ->
         authMiddleware authService now event st = (Ok event, st3)).
Proof.
  intros Hget Hlive Hdue Htoken Hne Hresp updates. subst updates.
  rewrite (authMiddleware_found authService now event sid Hcookie Hsid
             session st st1 Hget Hlive).
  assert (Htruthy : truthy (Some token) = true).
  { unfold truthy. rewrite bool_decide_eq_false_2 by exact Hne. reflexivity. }
  rewrite Hdue, Htoken, Htruthy. cbn [andb].
  assert (Hrefresh : BFFAuthService.refreshToken authService token st1
                     = (Ok newTokens, st1)).
  { unfold BFFAuthService.refreshToken. rewrite Hresp. reflexivity. }
  repeat apply conj.
  - intros st2 Hupd. erewrite tryCatch_ok; [reflexivity|].
    rewrite (bind_ok _ _ _ _ _ Hrefresh), (bind_ok _ _ _ _ _ Hupd). reflexivity.
  - intros st2 st3 Hupd Hreread. erewrite tryCatch_ok; [reflexivity|].
    rewrite (bind_ok _ _ _ _ _ Hrefresh), (bind_ok _ _ _ _ _ Hupd). cbn [negb].
    rewrite (bind_ok _ _ _ _ _ Hreread). reflexivity.
Qed.

End MiddlewareExtras.

Section MiddlewareExtrasMemory.

Import Middleware.

Variable endpoint : string -> BFFAuthService.FetchOutcome.

(** X19. A refresh that succeeds, on the in-memory store. The stored session
    gets the new access token, the new refresh token or, when the provider
    sent none, the old one, and [expiresAt = now + expires_in * 1000]; its
    [sessionId], [userId] and [idToken] stay; the locals carry the identity
    and the new access token, and the cookie is kept. *)
Theorem refresh_success_in_memory
    (now : Z) (event : Event) (sid token : string) (session : SessionData)
    (status : Z) (statusText : string) (newTokens : BFFAuthService.TokenResponse)
    (sessions : MemorySessionStore.Sessions) :
  cookies event !! "session_id" = Some sid ->
  sid <> "" ->
  sessions !! sid = Some session ->
  ~ (expiresAt session < now) ->
  BFFAuthService.shouldRefreshToken now session = true ->
  refreshToken session = Some token ->
  token <> "" ->
  endpoint token = BFFAuthService.Response true status statusText newTokens ->
  let refreshed :=
    {| sessionId := sessionId session;
       userId := userId session;
       accessToken := Some (BFFAuthService.access_token newTokens);
       refreshToken := orElse (BFFAuthService.refresh_token newTokens) (Some token);
       idToken := idToken session;
       expiresAt := now + BFFAuthService.expires_in newTokens * 1000 |} in
  authMiddleware
    {| BFFAuthService.sessionStore := MemorySessionStore.store;
       BFFAuthService.tokenEndpoint := endpoint |} now event sessions
  = (Ok {| cookies := cookies event;
           locals := {| user := Some {| user_userId := userId session;
                                        user_sessionId := sessionId session |};
                        localsAccessToken :=
                          Some (BFFAuthService.access_token newTokens) |} |},
     <[sid := refreshed]> sessions).
Proof.
  intros Hcookie Hsid Hs Hlive Hdue Htoken Hne Hresp refreshed.
  set (service := {| BFFAuthService.sessionStore := MemorySessionStore.store;
                     BFFAuthService.tokenEndpoint := endpoint |}).
  assert (Hget : BFFAuthService.getSession service now sid sessions
                 = (Ok (Some session), sessions)).
  { unfold BFFAuthService.getSession. cbn.
    unfold MemorySessionStore.getSession, gets. rewrite Hs. reflexivity. }
  pose proof (refresh_path_reread service now event sid Hcookie Hsid
                session token status statusText newTokens sessions sessions
                Hget Hlive Hdue Htoken Hne Hresp) as Hstep.
  rewrite (Hstep (<[sid := refreshed]> sessions) (<[sid := refreshed]> sessions)
             refreshed).
  - reflexivity.
  - unfold BFFAuthService.updateSession. cbn.
    unfold MemorySessionStore.updateSession, bind, gets, modify, ret.
    rewrite Hs. reflexivity.
  - unfold BFFAuthService.getSession. cbn.
    unfold MemorySessionStore.getSession, gets. rewrite lookup_insert_eq.
    reflexivity.
Qed.

End MiddlewareExtrasMemory.

Section MiddlewareExtraWitnesses.

Import Middleware Scenario Scenario2.

Lemma no_cookie_no_lookup_witness :
  let unreachable := (stored (session (Some "rt")), 0%nat) in
  authMiddleware outageService 1000000 bareEvent unreachable
  = (Ok bareEvent, unreachable).
Proof.
  intros unreachable.
  apply (no_cookie_no_lookup outageService 1000000 bareEvent unreachable).
  left. reflexivity.
Defined.

(** The in-memory store returns the session that expired at 1060000. *)
Lemma expired_or_missing_session_is_cleared_witness :
  let sessions : MemorySessionStore.Sessions := {[ "a" := session (Some "rt") ]} in
  authMiddleware memoryService 2000000 event sessions
  = (Ok {| cookies := ∅; locals := {| user := None; localsAccessToken := None |} |},
     sessions).
Proof.
  intros sessions.
  apply (expired_or_missing_session_is_cleared memoryService 2000000 event "a"
           eq_refl ltac:(discriminate) (Some (session (Some "rt"))) sessions sessions).
  - reflexivity.
  - right. exists (session (Some "rt")). split; [reflexivity | cbn; lia].
Defined.

Lemma refused_refresh_clears_cookie_witness :
  let sessions : MemorySessionStore.Sessions := {[ "a" := session (Some "rt") ]} in
  authMiddleware refusedService 1000000 event sessions
  = (Ok (clearSession event), sessions).
Proof.
  intros sessions.
  apply (refused_refresh_clears_cookie refusedService 1000000 event "a"
           eq_refl ltac:(discriminate) (session (Some "rt")) "rt" sessions sessions).
  - reflexivity.
  - cbn. lia.
  - reflexivity.
  - reflexivity.
  - discriminate.
  - right. exists 400, "Bad Request", newTokens. reflexivity.
Defined.

(** Another request logs the session out between the lookup and the update,
    or between the update and the re-read. *)
Lemma session_vanishing_during_refresh_witness :
  let sessions : MemorySessionStore.Sessions := {[ "a" := session (Some "rt") ]} in
  authMiddleware sharedService 1000000 event (sessions, [idles; logsOut])
  = (Ok (clearSession event), (∅, []))
  /\ authMiddleware sharedService 1000000 event (sessions, [idles; idles; logsOut])
     = (Ok event, (∅, [])).
Proof.
  intros sessions. split.
  - destruct (session_vanishing_during_refresh sharedService 1000000 event "a"
                eq_refl ltac:(discriminate) (session (Some "rt")) "rt" 200 "OK"
                newTokens (sessions, [idles; logsOut]) (sessions, [logsOut])
                eq_refl ltac:(cbn; lia) eq_refl eq_refl ltac:(discriminate) eq_refl)
      as [Hgone _].
    apply Hgone. reflexivity.
  - destruct (session_vanishing_during_refresh sharedService 1000000 event "a"
                eq_refl ltac:(discriminate) (session (Some "rt")) "rt" 200 "OK"
                newTokens (sessions, [idles; idles; logsOut])
                (sessions, [idles; logsOut])
                eq_refl ltac:(cbn; lia) eq_refl eq_refl ltac:(discriminate) eq_refl)
      as [_ Hgone].
    eapply Hgone; reflexivity.
Defined.

Lemma refresh_success_in_memory_witness :
  let sessions : MemorySessionStore.Sessions := {[ "a" := session (Some "rt") ]} in
  let refreshed :=
    {| sessionId := "a"; userId := "u"; accessToken := Some "at2";
       refreshToken := Some "rt"; idToken := None; expiresAt := 4600000 |} in
  authMiddleware memoryService 1000000 event sessions
  = (Ok {| cookies := {[ "session_id" := "a" ]};
           locals := {| user := Some {| user_userId := "u"; user_sessionId := "a" |};
                        localsAccessToken := Some "at2" |} |},
     {[ "a" := refreshed ]}).
Proof.
  intros sessions refreshed.
  etrans.
  - apply (refresh_success_in_memory provider 1000000 event "a" "rt"
             (session (Some "rt")) 200 "OK" newTokens sessions).
    + reflexivity.
    + discriminate.
    + reflexivity.
    + cbn. lia.
    + reflexivity.
    + reflexivity.
    + discriminate.
    + reflexivity.
  - reflexivity.
Defined.

End MiddlewareExtraWitnesses.

(** ** Properties of the authorization address and of the routes *)

Section AuthUrlExtras.

Import OIDC.

Lemma string_append_assoc (a b c : string) :
  (a +:+ b) +:+ c = a +:+ (b +:+ c).
Proof.
  induction a as [|x a IH]; [reflexivity|].
  change (String x ((a +:+ b) +:+ c) = String x (a +:+ (b +:+ c))).
  f_equal. exact IH.
Qed.

Lemma allChars_app (p : ascii -> bool) (a b : string) :
  allChars p (a +:+ b) = allChars p a && allChars p b.
Proof.
  induction a as [|c a IH]; [reflexivity|].
  simpl. rewrite IH. apply andb_assoc.
Qed.

Lemma encodeByte_chars (c : ascii) : allChars encodedChar (encodeByte c) = true.
Proof.
  destruct c as [[] [] [] [] [] [] [] []]; reflexivity.
Qed.

Lemma urlencode_chars (text : string) : allChars encodedChar (urlencode text) = true.
Proof.
  induction text as [|c rest IH]; [reflexivity|].
  cbn [urlencode]. rewrite allChars_app, encodeByte_chars, IH. reflexivity.
Qed.

Lemma urlSafeChar_unreserved (c : ascii) :
  PKCE.urlSafeChar c = true -> unreserved c = true.
Proof.
  destruct c as [[] [] [] [] [] [] [] []]; cbn; intros H;
    first [reflexivity | discriminate H].
Qed.

Lemma urlencode_urlSafe (text : string) :
  PKCE.urlSafe text = true -> urlencode text = text.
Proof.
  induction text as [|c rest IH]; [reflexivity|].
  cbn [PKCE.urlSafe urlencode]. intros [Hc Hrest]%andb_true_iff.
  unfold encodeByte. rewrite (urlSafeChar_unreserved c Hc). cbn.
  rewrite (IH Hrest). reflexivity.
Qed.

(** X20. Values cannot break out of the query of the authorization address:
    whatever text a parameter holds, its encoded form contains only letters,
    digits and [* - . _ + %], hence no [&], [=], [#] or space; and a value made
    of URL-safe characters, as the generated [state] and [code_challenge] are,
    is carried unchanged, the address being the issuer followed by the seven
    parameters in their fixed order. *)
Theorem authorization_url_parameters
    (config : OIDCConfig) (state codeChallenge : string) :
  (forall text, allChars encodedChar (urlencode text) = true)
  /\ (PKCE.urlSafe state = true ->
      PKCE.urlSafe codeChallenge = true ->
      getAuthUrl config state codeChallenge
      = issuer config +:+ "/auth?response_type=code&client_id="
        +:+ urlencode (clientId config)
        +:+ "&redirect_uri=" +:+ urlencode (redirectUri config)
        +:+ "&scope=" +:+ urlencode (String.concat " " (scopes config))
        +:+ "&state=" +:+ state
        +:+ "&code_challenge=" +:+ codeChallenge
        +:+ "&code_challenge_method=S256").
Proof.
  split; [apply urlencode_chars|].
  intros Hstate Hchallenge. unfold getAuthUrl, serialize.
  cbn [map String.concat fst snd].
  rewrite (urlencode_urlSafe state Hstate),
    (urlencode_urlSafe codeChallenge Hchallenge).
  change (urlencode "response_type") with "response_type".
  change (urlencode "code") with "code".
  change (urlencode "client_id") with "client_id".
  change (urlencode "redirect_uri") with "redirect_uri".
  change (urlencode "scope") with "scope".
  change (urlencode "state") with "state".
  change (urlencode "code_challenge") with "code_challenge".
  change (urlencode "code_challenge_method") with "code_challenge_method".
  change (urlencode "S256") with "S256".
  rewrite !string_append_assoc. reflexivity.
Qed.

End AuthUrlExtras.

Lemma authorization_url_parameters_witness :
  let config :=
    {| OIDC.issuer := "https://idp.example"; OIDC.clientId := "web app&admin=1";
       OIDC.clientSecret := "secret";
       OIDC.redirectUri := "http://localhost:5173/auth/callback";
       OIDC.scopes := ["openid"; "profile"; "email"] |} in
  OIDC.getAuthUrl config "0f1e2d" "E9Melhoa2OwvFrEMTJguCHaoeK1t8URWbuGJSstw-cM"
  = "https://idp.example/auth?response_type=code&client_id=web+app%26admin%3D1&redirect_uri=http%3A%2F%2Flocalhost%3A5173%2Fauth%2Fcallback&scope=openid+profile+email&state=0f1e2d&code_challenge=E9Melhoa2OwvFrEMTJguCHaoeK1t8URWbuGJSstw-cM&code_challenge_method=S256".
Proof.
  intros config.
  destruct (authorization_url_parameters config "0f1e2d"
              "E9Melhoa2OwvFrEMTJguCHaoeK1t8URWbuGJSstw-cM") as [_ H].
  rewrite (H eq_refl eq_refl). reflexivity.
Defined.

Section LoginExtras.

Import Utils Routes.

Lemma hexDigit_urlSafe (n : Z) : PKCE.urlSafeChar (hexDigit n) = true.
Proof.
  unfold hexDigit.
  assert (Hall : Forall (fun c => PKCE.urlSafeChar c = true)
                   (String.list_ascii_of_string "0123456789abcdef"))
    by (vm_compute; repeat constructor).
  destruct (nth_in_or_default (Z.to_nat n)
              (String.list_ascii_of_string "0123456789abcdef") "0"%char)
    as [Hin | ->].
  - rewrite Forall_forall in Hall. apply Hall. apply list_elem_of_In. exact Hin.
  - reflexivity.
Qed.

Lemma hex_length (bytes : list Z) :
  String.length (hex bytes) = (2 * length bytes)%nat.
Proof. induction bytes as [|b rest IH]; [reflexivity|]. cbn. rewrite IH. lia. Qed.

Lemma hex_urlSafe (bytes : list Z) : PKCE.urlSafe (hex bytes) = true.
Proof.
  induction bytes as [|b rest IH]; [reflexivity|].
  cbn [hex PKCE.urlSafe]. rewrite !hexDigit_urlSafe, IH. reflexivity.
Qed.

(** X21. The state that [generateSecureState] makes of [n] random bytes has
    [2n] characters, all of them hexadecimal digits and so URL-safe; from 8
    bytes on, and so for the 32 bytes it draws, it passes [isValidState]. *)
Theorem generated_state_is_valid (randomBytes : list Z) :
  String.length (generateSecureState randomBytes) = (2 * length randomBytes)%nat
  /\ PKCE.urlSafe (generateSecureState randomBytes) = true
  /\ ((8 <= length randomBytes)%nat ->
      isValidState (generateSecureState randomBytes) = true).
Proof.
  unfold generateSecureState. split; [apply hex_length|].
  split; [apply hex_urlSafe|].
  intros Hlen. unfold isValidState. rewrite hex_length. apply Z.leb_le. lia.
Qed.

Lemma generated_state_is_valid_witness :
  let randomBytes := repeat 171 32 in
  String.length (generateSecureState randomBytes) = 64%nat
  /\ isValidState (generateSecureState randomBytes) = true.
Proof.
  intros randomBytes.
  destruct (generated_state_is_valid randomBytes) as (Hlen & _ & Hvalid).
  split; [exact Hlen|]. apply Hvalid. cbn. lia.
Defined.

(** X22. A login is honoured by the callback for ten minutes, and only with
    its own state. For the cookie that [GET /auth/login] sets at [now] and a
    callback at [later] with a code and a state that are not empty: from
    [later - now >= 600000] on the answer is [invalid_request]; before that, it
    is [invalid_state] unless the state presented is the generated one, and
    then the code is exchanged with the generated verifier, whose S256
    challenge is the [code_challenge] of the address the login redirected
    to. *)
Theorem login_then_callback
    (config : OIDC.OIDCConfig) (pkceBytes stateBytes : list Z) (now later : Z)
    (code presented : string) :
  (8 <= length stateBytes)%nat ->
  code <> "" ->
  presented <> "" ->
  let response := login config pkceBytes stateBytes now in
  let verifier := (PKCE.generatePKCE pkceBytes).1 in
  let challenge := (PKCE.generatePKCE pkceBytes).2 in
  let state := generateSecureState stateBytes in
  callbackValidation later (Some code) (Some presented)
    (Some (oauthStateCookie response))
  = (if later - now <? 600000
     then if bool_decide (presented = state)
          then Exchange code verifier
          else RedirectError "invalid_state"
     else RedirectError "invalid_request")
  /\ redirectTo response = OIDC.getAuthUrl config state challenge
  /\ PKCE.verifyS256 verifier challenge = true.
Proof.
  intros Hlen Hcode Hpresented. cbn zeta.
  assert (Hvalid : isValidState (generateSecureState stateBytes) = true).
  { unfold isValidState, generateSecureState. rewrite hex_length.
    apply Z.leb_le. lia. }
  unfold login. cbn [PKCE.generatePKCE fst snd oauthStateCookie redirectTo].
  repeat apply conj.
  - unfold callbackValidation, falsy.
    rewrite !bool_decide_eq_false_2 by assumption. cbn [orb].
    unfold parseOAuthState. cbn [getProperty ownProperty String.eqb Ascii.eqb Bool.eqb].
    cbn. rewrite Hvalid. cbn [andb].
    unfold isValidTimestamp, maxAge. change (10 * 60 * 1000) with 600000.
    destruct (later - now <? 600000); reflexivity.
  - reflexivity.
  - unfold PKCE.verifyS256. apply bool_decide_eq_true_2. reflexivity.
Qed.

End LoginExtras.

Lemma login_then_callback_witness :
  let config :=
    {| OIDC.issuer := "https://idp.example"; OIDC.clientId := "web";
       OIDC.clientSecret := "secret";
       OIDC.redirectUri := "http://localhost:5173/auth/callback";
       OIDC.scopes := ["openid"] |} in
  let pkceBytes := repeat 7 32 in
  let stateBytes := repeat 171 32 in
  let cookie := Routes.oauthStateCookie (Routes.login config pkceBytes stateBytes 1000) in
  let state := Routes.generateSecureState stateBytes in
  Utils.callbackValidation 300000 (Some "code") (Some state) (Some cookie)
  = Utils.Exchange "code" (PKCE.generatePKCE pkceBytes).1
  /\ Utils.callbackValidation 300000 (Some "code") (Some "forged-state-value")
       (Some cookie)
     = Utils.RedirectError "invalid_state"
  /\ Utils.callbackValidation 601000 (Some "code") (Some state) (Some cookie)
     = Utils.RedirectError "invalid_request".
Proof.
  intros config pkceBytes stateBytes cookie state.
  repeat apply conj.
  - destruct (login_then_callback config pkceBytes stateBytes 1000 300000
                "code" state ltac:(cbn; lia) ltac:(discriminate)
                ltac:(discriminate)) as (H & _ & _).
    etrans; [exact H|]. reflexivity.
  - destruct (login_then_callback config pkceBytes stateBytes 1000 300000
                "code" "forged-state-value" ltac:(cbn; lia) ltac:(discriminate)
                ltac:(discriminate)) as (H & _ & _).
    etrans; [exact H|]. reflexivity.
  - destruct (login_then_callback config pkceBytes stateBytes 1000 601000
                "code" state ltac:(cbn; lia) ltac:(discriminate)
                ltac:(discriminate)) as (H & _ & _).
    etrans; [exact H|]. reflexivity.
Defined.

Section CallbackExtras.

Import Utils Routes.

Context {S : Type} (authService : BFFAuthService.t S).

Variable exchangeEndpoint : string -> string -> BFFAuthService.FetchOutcome.

(** X23. A callback that passes validation and whose code the provider
    exchanges creates the session: [createSession] is called with the fresh
    session id, the provider's subject and tokens and
    [expiresAt = now + expires_in * 1000]; the [session_id] cookie is set to
    that id and the [oauth_state] cookie is deleted. The redirect to the root
    that closes the [try] block is thrown inside it and caught by its [catch]
    clause, so the browser is sent to [/?error=auth_failed]. *)
Theorem callback_creates_session
    (uuid : string) (now : Z) (code state : option string)
    (storedData : option ParseOutcome) (c verifier : string)
    (status : Z) (statusText : string) (tokens : BFFAuthService.TokenResponse)
    (st : S) :
  callbackValidation now code state storedData = Exchange c verifier ->
  exchangeEndpoint c verifier
  = BFFAuthService.Response true status statusText tokens ->
  let sessionData :=
    {| sessionId := uuid;
       userId := BFFAuthService.sub tokens;
       accessToken := Some (BFFAuthService.access_token tokens);
       refreshToken := BFFAuthService.refresh_token tokens;
       idToken := BFFAuthService.id_token tokens;
       expiresAt := now + BFFAuthService.expires_in tokens * 1000 |} in
  callback authService exchangeEndpoint uuid now code state storedData st
  = (Redirect 302 "/?error=auth_failed",
     {| sessionCookie := Some uuid; oauthStateDeleted := true |},
     (BFFAuthService.createSession authService now sessionData st).2)
  /\ callbackAttempt authService exchangeEndpoint uuid now c verifier st
     = (Redirect 302 "/",
        {| sessionCookie := Some uuid; oauthStateDeleted := true |},
        (BFFAuthService.createSession authService now sessionData st).2).
Proof.
  intros Hvalid Hresp sessionData.
  assert (Hattempt : callbackAttempt authService exchangeEndpoint uuid now c verifier st
                     = (Redirect 302 "/",
                        {| sessionCookie := Some uuid; oauthStateDeleted := true |},
                        (BFFAuthService.createSession authService now sessionData st).2)).
  { unfold callbackAttempt, OIDC.exchangeCodeForTokens. rewrite Hresp. reflexivity. }
  split; [|exact Hattempt].
  unfold callback. rewrite Hvalid, Hattempt. reflexivity.
Qed.

(** X24. A callback that fails creates nothing. When validation fails the
    browser is sent to [/?error=invalid_request] or [/?error=invalid_state],
    the provider is not asked and the store is untouched; when the provider
    refuses the code or cannot be reached the browser is sent to
    [/?error=auth_failed] and the store is untouched. In both cases no
    [session_id] cookie is set and the [oauth_state] cookie is not deleted. *)
Theorem failed_callback_creates_nothing
    (uuid : string) (now : Z) (code state : option string)
    (storedData : option ParseOutcome) (st : S) :
  (forall kind,
      callbackValidation now code state storedData = RedirectError kind ->
      callback authService exchangeEndpoint uuid now code state storedData st
      = (Redirect 302 ("/?error=" +:+ kind), untouched, st)
      /\ (kind = "invalid_request" \/ kind = "invalid_state"))
  /\ (forall c verifier,
         callbackValidation now code state storedData = Exchange c verifier ->
         (exists e, exchangeEndpoint c verifier = BFFAuthService.FetchRejected e)
         \/ (exists status statusText json,
                exchangeEndpoint c verifier
                = BFFAuthService.Response false status statusText json) ->
         callback authService exchangeEndpoint uuid now code state storedData st
         = (Redirect 302 "/?error=auth_failed", untouched, st)).
Proof.
  split.
  - intros kind Hkind. split.
    + unfold callback. rewrite Hkind. reflexivity.
    + unfold callbackValidation in Hkind.
      destruct storedData as [cookie|], code as [c|], state as [s|];
        try (inversion Hkind; auto; fail).
      destruct (falsy (Some c) || falsy (Some s)); [inversion Hkind; auto|].
      destruct (parseOAuthState now cookie) as [o|]; [|inversion Hkind; auto].
      destruct (bool_decide (s = Utils.state o)); inversion Hkind; auto.
  - intros c verifier Hvalid Hrefused.
    unfold callback. rewrite Hvalid.
    unfold callbackAttempt, OIDC.exchangeCodeForTokens.
    destruct Hrefused as [[e ->]|(status & statusText & json & ->)]; reflexivity.
Qed.

End CallbackExtras.

Section CallbackThenRequest.

Import Utils Routes Middleware.

Variable tokenEndpoint : string -> BFFAuthService.FetchOutcome.
Variable exchangeEndpoint : string -> string -> BFFAuthService.FetchOutcome.

(** X25. From callback to first request, on the in-memory store. After a
    callback that created a session, a request that carries the [session_id]
    cookie it set, at a time at least five minutes before
    [expiresAt = now + expires_in * 1000], is authenticated as the provider's
    subject with the access token of the exchange; no refresh is tried and the
    store is left as the callback left it. *)
Theorem session_of_callback_authenticates
    (uuid : string) (now later : Z) (code state : option string)
    (storedData : option ParseOutcome) (c verifier : string)
    (status : Z) (statusText : string) (tokens : BFFAuthService.TokenResponse)
    (sessions : MemorySessionStore.Sessions) (event : Event) :
  let service :=
    {| BFFAuthService.sessionStore := MemorySessionStore.store;
       BFFAuthService.tokenEndpoint := tokenEndpoint |} in
  callbackValidation now code state storedData = Exchange c verifier ->
  exchangeEndpoint c verifier
  = BFFAuthService.Response true status statusText tokens ->
  uuid <> "" ->
  cookies event !! "session_id" = Some uuid ->
  later + 300000 <= now + BFFAuthService.expires_in tokens * 1000 ->
  let after :=
    (callback service exchangeEndpoint uuid now code state storedData sessions).2 in
  authMiddleware service later event after
  = (Ok {| cookies := cookies event;
           locals := {| user := Some {| user_userId := BFFAuthService.sub tokens;
                                        user_sessionId := uuid |};
                        localsAccessToken :=
                          Some (BFFAuthService.access_token tokens) |} |},
     after).
Proof.
  intros service Hvalid Hresp Huuid Hcookie Hearly after.
  set (sessionData :=
         {| sessionId := uuid;
            userId := BFFAuthService.sub tokens;
            accessToken := Some (BFFAuthService.access_token tokens);
            refreshToken := BFFAuthService.refresh_token tokens;
            idToken := BFFAuthService.id_token tokens;
            expiresAt := now + BFFAuthService.expires_in tokens * 1000 |}).
  assert (Hafter : after = <[uuid := sessionData]> sessions).
  { unfold after, callback. rewrite Hvalid.
    unfold callbackAttempt, OIDC.exchangeCodeForTokens. rewrite Hresp. reflexivity. }
  rewrite Hafter.
  assert (Hget : BFFAuthService.getSession service later uuid
                   (<[uuid := sessionData]> sessions)
                 = (Ok (Some sessionData), <[uuid := sessionData]> sessions)).
  { unfold BFFAuthService.getSession. cbn.
    unfold MemorySessionStore.getSession, gets. rewrite lookup_insert_eq.
    reflexivity. }
  rewrite (authMiddleware_found service later event uuid Hcookie Huuid
             sessionData _ _ Hget) by (cbn; lia).
  unfold BFFAuthService.shouldRefreshToken.
  replace (expiresAt sessionData - later <? 300000) with false
    by (symmetry; apply Z.ltb_ge; cbn; lia).
  reflexivity.
Qed.

End CallbackThenRequest.

Section LogoutExtras.

Import Routes Middleware.

Variable tokenEndpoint : string -> BFFAuthService.FetchOutcome.
Variable revokeEndpoint : string -> OIDC.RevokeOutcome.

(** [revokeToken] returns, whatever the provider does. *)
Lemma revokeToken_returns {S} (token : string) (st : S) :
  OIDC.revokeToken revokeEndpoint token st = (Ok tt, st).
Proof.
  unfold OIDC.revokeToken, tryCatch.
  destruct (revokeEndpoint token); reflexivity.
Qed.

(** X26. Logout on the in-memory store, whatever the provider answers to the
    revocation, even if it cannot be reached. For an authenticated request
    with a session cookie the stored session is deleted and the cookie is
    cleared; for a request that is not authenticated (empty [locals.user]) the
    cookie is cleared and the store is left as it is, a session stored under
    the cookie's id included. *)
Theorem logout_on_memory_store
    (now : Z) (cookies : gmap string string) (sid : string)
    (sessions : MemorySessionStore.Sessions) :
  let service :=
    {| BFFAuthService.sessionStore := MemorySessionStore.store;
       BFFAuthService.tokenEndpoint := tokenEndpoint |} in
  cookies !! "session_id" = Some sid ->
  sid <> "" ->
  (forall user,
      logout service revokeEndpoint now cookies (Some user) sessions
      = (Ok (delete "session_id" cookies), delete sid sessions))
  /\ logout service revokeEndpoint now cookies None sessions
     = (Ok (delete "session_id" cookies), sessions).
Proof.
  intros service Hcookie Hsid.
  assert (Htruthy : truthy (Some sid) = true).
  { unfold truthy. rewrite bool_decide_eq_false_2 by exact Hsid. reflexivity. }
  split.
  - intros user. unfold logout. rewrite Hcookie, Htruthy.
    unfold BFFAuthService.getSession, BFFAuthService.deleteSession. cbn.
    unfold MemorySessionStore.getSession, MemorySessionStore.deleteSession.
    unfold bind, gets.
    destruct (sessions !! sid) as [session|].
    + destruct (truthy (refreshToken session)) eqn:Ht;
        destruct (refreshToken session) as [token|];
        rewrite ?revokeToken_returns; reflexivity.
    + reflexivity.
  - unfold logout. rewrite Hcookie. reflexivity.
Qed.

End LogoutExtras.

Section LogoutFailure.

Import Routes Middleware.

Context {S : Type} (authService : BFFAuthService.t S).

Variable revokeEndpoint : string -> OIDC.RevokeOutcome.

(** X27. Logout does not survive a failing store. For an authenticated
    request with a session cookie, an error of the store's [getSession], or
    of its [deleteSession] after the lookup, leaves the handler as an error:
    the cookie is not cleared and no redirect is sent. *)
Theorem logout_store_failure_propagates
    (now : Z) (cookies : gmap string string) (sid : string) (user : User)
    (st : S) :
  cookies !! "session_id" = Some sid ->
  sid <> "" ->
  (forall e st1,
      BFFAuthService.getSession authService now sid st = (Throw e, st1) ->
      logout authService revokeEndpoint now cookies (Some user) st = (Throw e, st1))
  /\ (forall found e st1 st2,
         BFFAuthService.getSession authService now sid st = (Ok found, st1) ->
         BFFAuthService.deleteSession authService now sid st1 = (Throw e, st2) ->
         logout authService revokeEndpoint now cookies (Some user) st
         = (Throw e, st2)).
Proof.
  intros Hcookie Hsid.
  assert (Htruthy : truthy (Some sid) = true).
  { unfold truthy. rewrite bool_decide_eq_false_2 by exact Hsid. reflexivity. }
  split.
  - intros e st1 Hget. unfold logout. rewrite Hcookie, Htruthy.
    apply bind_throw. apply bind_throw. exact Hget.
  - intros found e st1 st2 Hget Hdel. unfold logout. rewrite Hcookie, Htruthy.
    apply bind_throw. rewrite (bind_ok _ _ _ _ _ Hget).
    assert (Hrevoke : (match found with
                       | Some session =>
                           match truthy (refreshToken session),
                                 refreshToken session with
                           | true, Some token =>
                               OIDC.revokeToken revokeEndpoint token
                           | _, _ => ret tt
                           end
                       | None => ret tt
                       end) st1 = (Ok tt, st1)).
    { destruct found as [session|]; [|reflexivity].
      destruct (truthy (refreshToken session));
        destruct (refreshToken session); try reflexivity.
      apply revokeToken_returns. }
    rewrite (bind_ok _ _ _ _ _ Hrevoke).
    apply bind_throw. exact Hdel.
Qed.

End LogoutFailure.

Section RouteWitnesses.

Import Utils Routes Middleware Scenario RouteScenario.

Lemma callback_creates_session_witness :
  callback memoryService exchanges "id-1" 2000 (Some "code") (Some state)
    (Some cookie) ∅
  = (Redirect 302 "/?error=auth_failed",
     {| sessionCookie := Some "id-1"; oauthStateDeleted := true |},
     {[ "id-1" := created ]}).
Proof.
  destruct (callback_creates_session memoryService exchanges "id-1" 2000
              (Some "code") (Some state) (Some cookie) "code"
              (PKCE.generatePKCE (repeat 7 32)).1 200 "OK" newTokens ∅
              eq_refl eq_refl) as [H _].
  etrans; [exact H|]. reflexivity.
Defined.

Lemma failed_callback_creates_nothing_witness :
  callback memoryService exchanges "id-1" 2000 (Some "code")
    (Some "forged-state-value") (Some cookie) ∅
  = (Redirect 302 "/?error=invalid_state", untouched, ∅)
  /\ callback memoryService refuses "id-1" 2000 (Some "code") (Some state)
       (Some cookie) ∅
     = (Redirect 302 "/?error=auth_failed", untouched, ∅).
Proof.
  split.
  - destruct (failed_callback_creates_nothing memoryService exchanges "id-1" 2000
                (Some "code") (Some "forged-state-value") (Some cookie) ∅)
      as [H _].
    destruct (H "invalid_state" eq_refl) as [Hrun _]. exact Hrun.
  - destruct (failed_callback_creates_nothing memoryService refuses "id-1" 2000
                (Some "code") (Some state) (Some cookie) ∅) as [_ H].
    apply (H "code" (PKCE.generatePKCE (repeat 7 32)).1 eq_refl).
    right. exists 400, "Bad Request", newTokens. reflexivity.
Defined.

Lemma session_of_callback_authenticates_witness :
  let request :=
    {| cookies := {[ "session_id" := "id-1" ]};
       locals := {| user := None; localsAccessToken := None |} |} in
  authMiddleware memoryService 3000 request {[ "id-1" := created ]}
  = (Ok {| cookies := {[ "session_id" := "id-1" ]};
           locals := {| user := Some {| user_userId := "u";
                                        user_sessionId := "id-1" |};
                        localsAccessToken := Some "at2" |} |},
     {[ "id-1" := created ]}).
Proof.
  intros request.
  pose proof (session_of_callback_authenticates provider exchanges "id-1" 2000 3000
                (Some "code") (Some state) (Some cookie) "code"
                (PKCE.generatePKCE (repeat 7 32)).1 200 "OK" newTokens ∅ request
                eq_refl eq_refl ltac:(discriminate) eq_refl ltac:(cbn; lia)) as H.
  etrans; [|exact H]. reflexivity.
Defined.

Lemma logout_on_memory_store_witness :
  let unreachable (token : string) := OIDC.RevokeRejected "ECONNREFUSED" in
  let sessions : MemorySessionStore.Sessions := {[ "a" := session (Some "rt") ]} in
  logout memoryService unreachable 1000000 (cookies event)
    (Some {| user_userId := "u"; user_sessionId := "a" |}) sessions
  = (Ok ∅, ∅)
  /\ logout memoryService unreachable 1000000 (cookies event) None sessions
     = (Ok ∅, sessions).
Proof.
  intros unreachable sessions.
  destruct (logout_on_memory_store provider unreachable 1000000
              (cookies event) "a" sessions eq_refl ltac:(discriminate))
    as [Hin Hout].
  split.
  - etrans; [apply Hin|]. reflexivity.
  - etrans; [apply Hout|]. reflexivity.
Defined.

Lemma logout_store_failure_propagates_witness :
  let answers (token : string) := OIDC.RevokeAnswered true in
  let unreachable := (stored (session (Some "rt")), 0%nat) in
  logout outageService answers 1000000 (cookies event)
    (Some {| user_userId := "u"; user_sessionId := "a" |}) unreachable
  = (Throw "ECONNREFUSED", unreachable).
Proof.
  intros answers unreachable.
  destruct (logout_store_failure_propagates outageService answers 1000000
              (cookies event) "a"
              {| user_userId := "u"; user_sessionId := "a" |} unreachable
              eq_refl ltac:(discriminate)) as [H _].
  apply H. reflexivity.
Defined.

End RouteWitnesses.

(** ** Generated secrets and the transaction cookie *)

Section GeneratedSecrets.

Import Crypto Routes Utils.

(** A byte is determined by its two hexadecimal digits. *)
Lemma hex_digits_injective (x y : Z) :
  isByte x -> isByte y ->
  hexDigit (Z.land (Z.shiftr x 4) 15) = hexDigit (Z.land (Z.shiftr y 4) 15) ->
  hexDigit (Z.land x 15) = hexDigit (Z.land y 15) ->
  x = y.
Proof.
  intros Hx Hy Hhi Hlo.
  pose proof (forallb_range2 256 256
    (fun x y =>
       implb (Ascii.eqb (hexDigit (Z.land (Z.shiftr x 4) 15))
                        (hexDigit (Z.land (Z.shiftr y 4) 15))
              && Ascii.eqb (hexDigit (Z.land x 15)) (hexDigit (Z.land y 15)))
             (x =? y))
    ltac:(vm_compute; reflexivity) x y Hx Hy) as H.
  cbv beta in H. rewrite Hhi, Hlo, !Ascii.eqb_refl in H. cbn in H.
  apply Z.eqb_eq. exact H.
Qed.

Lemma hex_injective (a : list Z) :
  forall b, Forall isByte a -> Forall isByte b -> hex a = hex b -> a = b.
Proof.
  induction a as [|x a IH]; intros [|y b] Ha Hb Heq;
    try reflexivity; try discriminate Heq.
  apply Forall_cons in Ha as [Hx Ha]. apply Forall_cons in Hb as [Hy Hb].
  cbn [hex] in Heq. inversion Heq as [[Hhi Hlo Hrest]].
  f_equal.
  - apply hex_digits_injective; assumption.
  - apply IH; assumption.
Qed.

(** X28. No randomness is lost in the generated secrets: two buffers of
    random bytes that give the same [codeVerifier] are the same buffer, and
    likewise for the state of [generateSecureState]. *)
Theorem randomness_is_kept (a b : list Z) :
  Forall isByte a ->
  Forall isByte b ->
  ((PKCE.generatePKCE a).1 = (PKCE.generatePKCE b).1 -> a = b)
  /\ (generateSecureState a = generateSecureState b -> a = b).
Proof.
  intros Ha Hb. split.
  - unfold PKCE.generatePKCE. cbn [fst]. intros Heq.
    pose proof (base64urlDecode_base64url a Ha) as Hda.
    pose proof (base64urlDecode_base64url b Hb) as Hdb.
    rewrite Heq, Hdb in Hda. inversion Hda. reflexivity.
  - unfold generateSecureState. apply hex_injective; assumption.
Qed.

Lemma randomness_is_kept_witness :
  (PKCE.generatePKCE [1; 2; 3; 4]).1 <> (PKCE.generatePKCE [1; 2; 3; 5]).1
  /\ generateSecureState [1; 2; 3; 4] <> generateSecureState [1; 2; 3; 5].
Proof.
  assert (Ha : Forall isByte [1; 2; 3; 4]) by (repeat constructor; unfold isByte; lia).
  assert (Hb : Forall isByte [1; 2; 3; 5]) by (repeat constructor; unfold isByte; lia).
  destruct (randomness_is_kept [1; 2; 3; 4] [1; 2; 3; 5] Ha Hb) as [Hv Hs].
  split; intros Heq; [apply Hv in Heq | apply Hs in Heq]; discriminate Heq.
Defined.

(** X29. What [parseOAuthState] accepts. It returns a value exactly for a
    cookie that parses to an object whose [state] is a string of at least 16
    characters, whose [codeVerifier] is a string and whose [timestamp] is a
    number less than ten minutes before [now], and the value holds these three
    fields; a text that is not JSON, [null], a primitive, an array, and an
    object on which a field is missing or of another type, all give null. *)
Theorem parseOAuthState_accepts_exactly
    (now : Z) (stateData : ParseOutcome) (accepted : OAuthState) :
  parseOAuthState now stateData = Some accepted
  <-> exists fields,
        stateData = Parsed (JsObject fields)
        /\ ownProperty fields "state" = Some (JsString (state accepted))
        /\ ownProperty fields "codeVerifier" = Some (JsString (codeVerifier accepted))
        /\ ownProperty fields "timestamp" = Some (JsNumber (timestamp accepted))
        /\ (16 <= String.length (state accepted))%nat
        /\ now - timestamp accepted < 600000.
Proof.
  split.
  - unfold parseOAuthState.
    destruct stateData as [|parsed]; [discriminate|].
    destruct parsed as [| b | n | s | items | fields]; try discriminate.
    cbn [getProperty].
    destruct (ownProperty fields "state") as [[| | | st | |]|] eqn:Hst;
      try discriminate.
    destruct (ownProperty fields "codeVerifier") as [[| | | cv | |]|] eqn:Hcv;
      try discriminate.
    destruct (ownProperty fields "timestamp") as [[| | ts | | |]|] eqn:Hts;
      try discriminate.
    destruct (isValidState st && isValidTimestamp now ts) eqn:Hok; [|discriminate].
    apply andb_true_iff in Hok as [Hlen Hfresh].
    intros H. inversion H; subst. cbn.
    exists fields. repeat apply conj; try reflexivity; try assumption.
    + unfold isValidState in Hlen. apply Z.leb_le in Hlen. lia.
    + apply isValidTimestamp_spec. exact Hfresh.
  - intros (fields & -> & Hst & Hcv & Hts & Hlen & Hfresh).
    unfold parseOAuthState. cbn [getProperty]. rewrite Hst, Hcv, Hts.
    unfold isValidState.
    replace (16 <=? Z.of_nat (String.length (state accepted))) with true
      by (symmetry; apply Z.leb_le; lia).
    replace (isValidTimestamp now (timestamp accepted)) with true
      by (symmetry; apply isValidTimestamp_spec; exact Hfresh).
    destruct accepted. reflexivity.
Qed.

End GeneratedSecrets.
